(** * HermitCore port of lwIP: the architecture layer and the uhyve NIC driver

    A shallow embedding of [src/arch/sys_arch.c] (mailboxes, the socket
    shim, the pseudo-random generator) and of [src/arch/uhyve-net.c] (the
    para-virtualised network driver), followed by the properties the
    specification states about them.

    Conventions.
    - A C integer is a [Z]; conversions to a narrower unsigned type are
      written out ([u8], [u16], [u32]).  Arithmetic in the signed type
      [long] is checked: an operation whose mathematical result does not
      fit is undefined behaviour in C and yields [None] here.
    - A pointer that may be [NULL] is an [option].
    - Collaborators that live outside these two files (the kernel's
      mailbox, the stack's buffer pool and worker queue, the hypervisor)
      are interfaces: type classes whose fields are the calls the code
      makes.  Every call that leaves the driver is logged in a trace. *)

From Stdlib Require Import ZArith Lia Bool Ascii String HexString.
From stdpp Require Import base tactics option list.

Local Open Scope Z_scope.
Local Set Warnings "-register-all".

(** ** Fixed-width conversions *)

Definition u8 (z : Z) : Z := z mod 2 ^ 8.
Definition u16 (z : Z) : Z := z mod 2 ^ 16.
Definition u32 (z : Z) : Z := z mod 2 ^ 32.
Definition u64 (z : Z) : Z := z mod 2 ^ 64.

(** [TRUE] and [FALSE] of sys_arch.c. *)
Definition TRUE : Z := 1.
Definition FALSE : Z := 0.

(** The values of [err_t] the two files return. *)
Inductive err_t : Type := ERR_OK | ERR_MEM | ERR_VAL | ERR_IF.

Global Instance err_t_eq_dec : EqDecision err_t.
Proof. solve_decision. Defined.

(** ** sys_arch.c: the pseudo-random generator *)

Module Rand.

Definition RAND_MAX : Z := 0x7fffffff.

Section CheckedLong.
(** Width of the C type [long] in bits (64 on x86_64 and aarch64). *)
Variable long_bits : Z.

Definition LONG_MIN : Z := - 2 ^ (long_bits - 1).
Definition LONG_MAX : Z := 2 ^ (long_bits - 1) - 1.

(** The result of an operation on [long]s, when it is representable. *)
Definition as_long (z : Z) : option Z :=
  if (LONG_MIN <=? z) && (z <=? LONG_MAX) then Some z else None.

Definition ladd (a b : Z) : option Z := as_long (a + b).
Definition lsub (a b : Z) : option Z := as_long (a - b).
Definition lmul (a b : Z) : option Z := as_long (a * b).
(** C division truncates towards zero. *)
Definition ldiv (a b : Z) : option Z :=
  if b =? 0 then None else as_long (Z.quot a b).

(** [(long)u] for an [unsigned int] [u]: exact when it fits, reduced
    into the range of [long] otherwise. *)
Definition long_of_uint (u : Z) : Z :=
  (u + 2 ^ (long_bits - 1)) mod 2 ^ long_bits - 2 ^ (long_bits - 1).

(** [__rand(&seed)]: the returned [int] and the value stored back in
    [*seed]. *)
Definition __rand (seed : Z) : option (Z * Z) :=
  let s := long_of_uint seed in
  let s := if s =? 0 then 0x12345987 else s in
  k ← ldiv s 127773;
  kq ← lmul k 127773;
  lo ← lsub s kq;
  hi ← lmul 16807 lo;
  rk ← lmul 2836 k;
  s ← lsub hi rk;
  s ← (if s <? 0 then ladd s 2147483647 else Some s);
  Some (Z.land s RAND_MAX, u32 s).
End CheckedLong.

(** [__rand_init]: the seed is the cycle counter (a [uint64_t]) modulo 127. *)
Definition __rand_init (tsc : Z) : Z := u32 (u64 tsc mod 127).

(** The processor features [lwip_rand] consults. *)
Record cpu : Type := Cpu {
  has_rdrand : bool;
  rdrand : Z   (* the next value of the hardware generator, a uint32_t *)
}.

(** [lwip_rand()]: the returned [int] and the new [rand_seed].  The
    spinlock around the software path has no sequential content. *)
Definition lwip_rand (long_bits : Z) (hw : cpu) (rand_seed : Z)
  : option (Z * Z) :=
  if has_rdrand hw then Some (u32 (rdrand hw) mod RAND_MAX, rand_seed)
  else __rand long_bits rand_seed.

(** The values [rand_seed] can hold: its static initialiser, what
    [__rand_init] stores, and what the software path of [lwip_rand]
    stores back. *)
Inductive stored_seed (long_bits : Z) : Z -> Prop :=
| stored_static : stored_seed long_bits 0
| stored_init (tsc : Z) : stored_seed long_bits (__rand_init tsc)
| stored_next (hw : cpu) (s r s' : Z) :
    stored_seed long_bits s ->
    lwip_rand long_bits hw s = Some (r, s') ->
    stored_seed long_bits s'.

(** The recurrence as the header comment of the generator gives it:
    I[j+1] = a * I[j] (mod m), a = 16807, m = 2147483647. *)
Definition minimal_standard (s : Z) : Z := (16807 * s) mod 2147483647.

End Rand.

(** ** sys_arch.c: mailboxes *)

Module Mbox.

(** A message is a [void *]. *)
Definition ptr : Type := Z.

(** The kernel's pointer mailbox ([mailbox_ptr_*] of the HermitCore
    kernel), as [sys_arch.c] calls it: every call returns an [int]
    status, 0 on success. *)
Class KernelMailbox : Type := {
  mailbox_ptr_t : Type;
  mailbox_ptr_init : mailbox_ptr_t -> Z * mailbox_ptr_t;
  mailbox_ptr_destroy : mailbox_ptr_t -> mailbox_ptr_t;
  mailbox_ptr_trypost : mailbox_ptr_t -> ptr -> Z * mailbox_ptr_t;
  mailbox_ptr_tryfetch : mailbox_ptr_t -> Z * option ptr * mailbox_ptr_t
}.

(** Modelled from the spec: the live-object counter behind
    [SYS_STATS_INC_USED(mbox)] and [SYS_STATS_DEC(mbox.used)] of the absent
    lwip/stats.h ("increments a live-object counter"); it counts without a
    width. *)
Record sys_stats : Type := SysStats { mbox_used : Z }.

Definition SYS_MBOX_EMPTY : Z := 0xffffffff.

Section SysMbox.
Context `{KernelMailbox}.

Record sys_mbox_t : Type := SysMbox {
  mailbox : mailbox_ptr_t;
  valid : Z
}.

Definition sys_mbox_valid (mbox : option sys_mbox_t) : Z :=
  match mbox with
  | None => FALSE
  | Some m => valid m
  end.

(** [sys_mbox_new(mb, size)]: status, the mailbox behind [mb], and the
    statistics. *)
Definition sys_mbox_new (mb : option sys_mbox_t) (size : Z) (st : sys_stats)
  : err_t * option sys_mbox_t * sys_stats :=
  match mb with
  | None => (ERR_VAL, None, st)
  | Some m =>
      let m := {| mailbox := mailbox m; valid := TRUE |} in
      let st := {| mbox_used := mbox_used st + 1 |} in
      let '(err, box) := mailbox_ptr_init (mailbox m) in
      let m := {| mailbox := box; valid := valid m |} in
      if err =? 0 then (ERR_OK, Some m, st) else (ERR_MEM, Some m, st)
  end.

Definition sys_mbox_set_invalid (mbox : sys_mbox_t) : sys_mbox_t :=
  {| mailbox := mailbox mbox; valid := FALSE |}.

Definition sys_mbox_free (mbox : option sys_mbox_t) (st : sys_stats)
  : option sys_mbox_t * sys_stats :=
  match mbox with
  | None => (None, st)
  | Some m =>
      (Some {| mailbox := mailbox_ptr_destroy (mailbox m); valid := FALSE |},
       {| mbox_used := mbox_used st - 1 |})
  end.

Definition sys_mbox_trypost (mbox : sys_mbox_t) (msg : ptr)
  : err_t * sys_mbox_t :=
  let '(err, box) := mailbox_ptr_trypost (mailbox mbox) msg in
  let mbox := {| mailbox := box; valid := valid mbox |} in
  if err =? 0 then (ERR_OK, mbox) else (ERR_MEM, mbox).

Definition sys_mbox_trypost_fromisr (q : sys_mbox_t) (msg : ptr)
  : err_t * sys_mbox_t :=
  sys_mbox_trypost q msg.

(** [sys_arch_mbox_tryfetch(mbox, &msg)]: status, what was stored in
    [msg] if anything, and the mailbox. *)
Definition sys_arch_mbox_tryfetch (mbox : sys_mbox_t)
  : Z * option ptr * sys_mbox_t :=
  let '(ret, msg, box) := mailbox_ptr_tryfetch (mailbox mbox) in
  let mbox := {| mailbox := box; valid := valid mbox |} in
  if ret =? 0 then (0, msg, mbox) else (SYS_MBOX_EMPTY, msg, mbox).

(** A client posting the messages [msgs] one after the other through
    the non-blocking path: the statuses, in order, and the mailbox. *)
Fixpoint trypost_all (mbox : sys_mbox_t) (msgs : list ptr)
  : list err_t * sys_mbox_t :=
  match msgs with
  | [] => ([], mbox)
  | msg :: msgs =>
      let '(e, mbox) := sys_mbox_trypost mbox msg in
      let '(es, mbox) := trypost_all mbox msgs in
      (e :: es, mbox)
  end.
End SysMbox.

(** Modelled from the spec: the kernel mailbox, a "bounded pointer-sized
    message queue" whose "capacity is fixed at creation; a full mailbox
    rejects non-blocking posts".  The kernel source is absent;
    [MAILBOX_SIZE] is its compile-time capacity, and the initialiser takes
    no size, as in the call [mailbox_ptr_init(&mb->mailbox)]. *)
Definition bounded_mailbox (MAILBOX_SIZE : nat) : KernelMailbox := {|
  mailbox_ptr_t := list ptr;
  mailbox_ptr_init := fun _ => (0, []);
  mailbox_ptr_destroy := fun _ => [];
  mailbox_ptr_trypost := fun q msg =>
    if (length q <? MAILBOX_SIZE)%nat then (0, q ++ [msg]) else (-1, q);
  mailbox_ptr_tryfetch := fun q =>
    match q with
    | [] => (-1, None, [])
    | msg :: q => (0, Some msg, q)
    end
|}.

(** A kernel whose mailbox initialisation reports an error and leaves the
    mailbox as it was; the other calls are those of [bounded_mailbox]. *)
Definition failing_init_mailbox (MAILBOX_SIZE : nat) : KernelMailbox := {|
  mailbox_ptr_t := list ptr;
  mailbox_ptr_init := fun q => (-1, q);
  mailbox_ptr_destroy := fun _ => [];
  mailbox_ptr_trypost :=
    @mailbox_ptr_trypost (bounded_mailbox MAILBOX_SIZE);
  mailbox_ptr_tryfetch :=
    @mailbox_ptr_tryfetch (bounded_mailbox MAILBOX_SIZE)
|}.

End Mbox.

(** ** sys_arch.c: the socket shim *)

Module Shim.

(** The stack's socket layer as the shim calls it.  [errno] is the
    stack's error code after a call. *)
Class LwipSockets : Type := {
  lwip_t : Type;
  pollfd : Type;
  fd_set : Type;
  timeval : Type;
  errno : lwip_t -> Z;
  lwip_poll : list pollfd -> Z -> Z -> lwip_t -> Z * list pollfd * lwip_t;
  lwip_select :
    Z -> option fd_set -> option fd_set -> option fd_set -> option timeval ->
    lwip_t -> Z * (option fd_set * option fd_set * option fd_set) * lwip_t
}.

Section SocketShim.
Context `{LwipSockets}.

(** What the shim can change: the stack, the C library's error slot
    ([*libc_errno()], the static [getreent]) and the number of times
    the caller yielded the processor. *)
Record process : Type := Process {
  lwip : lwip_t;
  getreent : Z;
  yields : nat
}.

Definition poll (fds : list pollfd) (nfds timeout : Z) (ps : process)
  : Z * list pollfd * process :=
  let '(ret, fds, st) := lwip_poll fds nfds timeout (lwip ps) in
  if negb (ret =? 0) then
    (-1, fds, {| lwip := st; getreent := errno st; yields := yields ps |})
  else
    (0, fds, {| lwip := st; getreent := getreent ps; yields := yields ps |}).

Definition select (maxfdp1 : Z) (readset writeset exceptset : option fd_set)
    (timeout : option timeval) (ps : process)
  : Z * (option fd_set * option fd_set * option fd_set) * process :=
  let '(ret, sets, st) :=
    lwip_select maxfdp1 readset writeset exceptset timeout (lwip ps) in
  if ret <? 0 then
    (-1, sets, {| lwip := st; getreent := errno st; yields := yields ps |})
  else
    (* sys_yield() *)
    (ret, sets,
     {| lwip := st; getreent := getreent ps; yields := S (yields ps) |}).
End SocketShim.

(** A stack whose next [lwip_poll] and [lwip_select] report [ready]
    descriptors, or fail with [-1] and error code [err]. *)
Definition scripted_stack (ready err : Z) : LwipSockets := {|
  lwip_t := unit;
  pollfd := Z;
  fd_set := list Z;
  timeval := Z;
  errno := fun _ => err;
  lwip_poll := fun fds _ _ st => (ready, fds, st);
  lwip_select := fun _ r w e _ st => (ready, (r, w, e), st)
|}.

End Shim.

(** ** uhyve-net.c: the network driver *)

Module UhyveNet.

Abbreviation byte := Byte.byte.

(** [struct pbuf]: one segment of a frame and the rest of its chain.
    [payload] holds the bytes at the payload pointer, [len] the length of
    this segment and [tot_len] that of this segment and all that follow. *)
Inductive pbuf : Type := Pbuf {
  next : option pbuf;
  payload : list byte;
  len : Z;
  tot_len : Z
}.

(** The segments met by [for (q = p; q != NULL; q = q->next)]. *)
Fixpoint chain (p : pbuf) : list pbuf :=
  match p with
  | Pbuf nx _ _ _ =>
      p :: match nx with
           | Some q => chain q
           | None => []
           end
  end.

(** The frame a chain carries: the first [len] bytes of each payload. *)
Definition seg_bytes (q : pbuf) : list byte :=
  take (Z.to_nat (len q)) (payload q).
Definition chain_bytes (p : pbuf) : list byte :=
  concat (map seg_bytes (chain p)).

(** The length of the frame, summed over the segments. *)
Definition chain_len (p : pbuf) : Z :=
  foldr Z.add 0 (map len (chain p)).

(** [memcpy(dst, src, n)] on the bytes at [dst] and at [src]. *)
Definition memcpy (dst src : list byte) (n : Z) : list byte :=
  take (Z.to_nat n) src ++ drop (Z.to_nat n) dst.

Inductive link_counter : Type := link_xmit | link_recv | link_drop | link_memerr.

(** What the driver does to the world outside it, in the order it does it. *)
Inductive event : Type :=
| NetWrite (data : list byte) (n : Z)   (* a request on UHYVE_PORT_NETWRITE *)
| NetRead (n : Z)                       (* a request on UHYVE_PORT_NETREAD *)
| PbufAlloc (length : Z)
| PbufFree (p : pbuf)
| TcpipCallback (p : pbuf)              (* consume_packet queued with ctx p *)
| LinkStatsInc (c : link_counter)
| Kprintf (fmt : string) (args : list Z)
| Eoi.

(** The stack and the configuration the driver is built against.
    [RX_BUF_LEN] comes from uhyve-net.h and [ETH_PAD_SIZE] from the stack's
    options; [pbuf_alloc] stands for [pbuf_alloc(PBUF_RAW, length,
    PBUF_POOL)] and [tcpip_callback_with_block] for the non-blocking
    hand-off of [consume_packet] with the buffer as context. *)
Class Platform : Type := {
  RX_BUF_LEN : Z;
  ETH_PAD_SIZE : Z;
  stack_t : Type;
  pbuf_alloc : Z -> stack_t -> option pbuf * stack_t;
  pbuf_header : pbuf -> Z -> pbuf;
  pbuf_free : pbuf -> stack_t -> stack_t;
  tcpip_callback_with_block : pbuf -> stack_t -> err_t * stack_t
}.

(** Modelled from the spec: the hypervisor's side of [NET_READ(buffer,
    in_out_length) -> status, actual_length].  [pending] are the frames
    queued for the guest.  With none, the status is non-zero ("no data")
    and nothing changes; otherwise the oldest frame is consumed, at most
    [n] of its bytes are stored at the start of the buffer, and the status
    is 0 with the stored length. *)
Definition host_netread (pending : list (list byte)) (buf : list byte) (n : Z)
  : Z * Z * list byte * list (list byte) :=
  match pending with
  | [] => (-1, n, buf, [])
  | f :: pending =>
      let d := take (Z.to_nat n) f in
      (0, Z.of_nat (length d), d ++ drop (length d) buf, pending)
  end.

Section Driver.
Context `{Platform}.

Record world : Type := World {
  uhyve_net_init_ok : Z;          (* static int8_t *)
  rx_buf : list byte;             (* uhyve_netif->rx_buf *)
  host_rx : list (list byte);     (* frames waiting in the hypervisor *)
  stack : stack_t;
  trace : list event
}.

(** Driver code runs in a state monad over [world]. *)
Definition Drv (A : Type) : Type := world -> A * world.

Global Instance drv_ret : MRet Drv := fun A a w => (a, w).
Global Instance drv_bind : MBind Drv :=
  fun A B f m w => let '(a, w) := m w in f a w.

Definition emit (e : event) : Drv unit := fun w =>
  (tt, {| uhyve_net_init_ok := uhyve_net_init_ok w; rx_buf := rx_buf w;
          host_rx := host_rx w; stack := stack w;
          trace := trace w ++ [e] |}).

Definition gets {A : Type} (f : world -> A) : Drv A := fun w => (f w, w).

(** A call into the stack: logged, and run on the stack's state. *)
Definition call_stack {A : Type} (e : event) (f : stack_t -> A * stack_t)
  : Drv A := fun w =>
  let '(a, st) := f (stack w) in
  (a, {| uhyve_net_init_ok := uhyve_net_init_ok w; rx_buf := rx_buf w;
         host_rx := host_rx w; stack := st;
         trace := trace w ++ [e] |}).

Definition LINK_STATS_INC (c : link_counter) : Drv unit :=
  emit (LinkStatsInc c).
Definition kprintf (fmt : string) (args : list Z) : Drv unit :=
  emit (Kprintf fmt args).
Definition eoi : Drv unit := emit Eoi.

(** [uhyve_net_write_sync(data, n)]: one request on the write port; the
    hypervisor answers with the number of bytes it took. *)
Definition uhyve_net_write_sync (data : list byte) (n : Z) : Drv Z :=
  emit (NetWrite data n);; mret n.

(** [uhyve_net_read_sync(uhyve_netif->rx_buf, &n)]: the status and the
    new value of [n]. *)
Definition uhyve_net_read_sync (n : Z) : Drv (Z * Z) := fun w =>
  let '(ret, n', buf, pending) := host_netread (host_rx w) (rx_buf w) n in
  ((ret, n'),
   {| uhyve_net_init_ok := uhyve_net_init_ok w; rx_buf := buf;
      host_rx := pending; stack := stack w;
      trace := trace w ++ [NetRead n] |}).

(** The [#if ETH_PAD_SIZE] blocks: hide, then reclaim, the padding word. *)
Definition drop_padding (p : pbuf) : pbuf :=
  if ETH_PAD_SIZE =? 0 then p else pbuf_header p (- ETH_PAD_SIZE).
Definition reclaim_padding (p : pbuf) : pbuf :=
  if ETH_PAD_SIZE =? 0 then p else pbuf_header p ETH_PAD_SIZE.

(** *** Output *)

(** [for (q = p, i = 0; q != 0; q = q->next)]: one write per segment
    ([i] is summed and never read). *)
Fixpoint output_loop (q : pbuf) : Drv unit :=
  match q with
  | Pbuf nx pl l _ =>
      uhyve_net_write_sync pl l;;
      match nx with
      | Some q' => output_loop q'
      | None => mret tt
      end
  end.

Definition uhyve_netif_output (p : pbuf) : Drv err_t :=
  if 1792 <? tot_len p then
    kprintf "uhyve_netif_output: packet (%i bytes) is longer than 1792 bytes"
            [tot_len p];;
    mret ERR_IF
  else
    output_loop (drop_padding p);;
    LINK_STATS_INC link_xmit;;
    mret ERR_OK.

(** *** Polling *)

(** [for (q=p; q!=NULL; q=q->next) { memcpy(q->payload, rx_buf + pos,
    q->len); pos += q->len; }] with [uint8_t pos]. *)
Fixpoint rx_copy (rx : list byte) (pos : Z) (q : pbuf) : pbuf :=
  match q with
  | Pbuf nx pl l tl =>
      let pl := memcpy pl (drop (Z.to_nat pos) rx) l in
      let pos := u8 (pos + l) in
      Pbuf (match nx with
            | Some q' => Some (rx_copy rx pos q')
            | None => None
            end) pl l tl
  end.

(** The chains on which the 8-bit [pos] of the copy loop is the offset it
    stands for: no segment is negative and no segment but the first starts
    at offset 256 or beyond. *)
Fixpoint no_wrap (pos : Z) (q : pbuf) : Prop :=
  match q with
  | Pbuf nx _ l _ =>
      0 <= l /\
      match nx with
      | Some q' => pos + l < 256 /\ no_wrap (pos + l) q'
      | None => True
      end
  end.

(** The body of the [while] loop, entered after a read that returned 0
    with length [len]; it returns the value [len] has at its end. *)
Definition poll_body (len : Z) : Drv Z :=
  let len := len + ETH_PAD_SIZE in
  p ← call_stack (PbufAlloc (u16 len)) (pbuf_alloc (u16 len));
  match p with
  | Some p =>
      rx ← gets rx_buf;
      let p := reclaim_padding (rx_copy rx 0 (drop_padding p)) in
      e ← call_stack (TcpipCallback p) (tcpip_callback_with_block p);
      (if decide (e = ERR_OK) then
         LINK_STATS_INC link_recv
       else
         LINK_STATS_INC link_drop;;
         call_stack (PbufFree p) (fun st => (tt, pbuf_free p st)));;
      mret len
  | None =>
      kprintf "uhyve_netif_poll: not enough memory!" [];;
      LINK_STATS_INC link_memerr;;
      LINK_STATS_INC link_drop;;
      mret len
  end.

(** [while (uhyve_net_read_sync(rx_buf, &len) == 0) { ... }], at most
    [fuel] reads; the result tells whether the loop was left. *)
Fixpoint poll_loop (fuel : nat) (len : Z) : Drv bool :=
  match fuel with
  | O => mret false
  | S fuel =>
      '(ret, len) ← uhyve_net_read_sync len;
      if ret =? 0 then
        len ← poll_body len;
        poll_loop fuel len
      else mret true
  end.

Definition uhyve_netif_poll_fuel (fuel : nat) : Drv bool :=
  ok ← gets uhyve_net_init_ok;
  if ok =? 0 then mret true
  else
    left ← poll_loop fuel RX_BUF_LEN;
    if left : bool then eoi;; mret true else mret false.

(** [uhyve_netif_poll()].  Every read that returns 0 consumes a pending
    frame, so one read more than there are pending frames is enough. *)
Definition uhyve_netif_poll : Drv unit := fun w =>
  (tt, snd (uhyve_netif_poll_fuel (S (length (host_rx w))) w)).

(** The world after more events. *)
Definition log (evs : list event) (w : world) : world :=
  {| uhyve_net_init_ok := uhyve_net_init_ok w; rx_buf := rx_buf w;
     host_rx := host_rx w; stack := stack w; trace := trace w ++ evs |}.

(** What a trace contains. *)
Definition count (f : event -> bool) (evs : list event) : nat :=
  length (List.filter f evs).

Definition is_eoi (e : event) : bool :=
  match e with Eoi => true | _ => false end.
Definition is_read (e : event) : bool :=
  match e with NetRead _ => true | _ => false end.
Definition is_alloc (e : event) : bool :=
  match e with PbufAlloc _ => true | _ => false end.
Definition is_free (e : event) : bool :=
  match e with PbufFree _ => true | _ => false end.
Definition is_callback (e : event) : bool :=
  match e with TcpipCallback _ => true | _ => false end.
Definition is_stat (c : link_counter) (e : event) : bool :=
  match e, c with
  | LinkStatsInc link_xmit, link_xmit
  | LinkStatsInc link_recv, link_recv
  | LinkStatsInc link_drop, link_drop
  | LinkStatsInc link_memerr, link_memerr => true
  | _, _ => false
  end.

(** The events of handling [n] received frames: no acknowledgment, one
    allocation each; a frame is either handed to the worker or counted in
    [link.memerr]; it is counted in [link.recv] or in [link.drop]; the drops
    are the failed allocations and the buffers freed after a refused
    hand-off. *)
Definition handled (n : nat) (evs : list event) : Prop :=
  count is_eoi evs = 0%nat /\
  count is_alloc evs = n /\
  (count is_callback evs + count (is_stat link_memerr) evs = n)%nat /\
  (count (is_stat link_recv) evs + count (is_stat link_drop) evs = n)%nat /\
  count (is_stat link_drop) evs =
    (count (is_stat link_memerr) evs + count is_free evs)%nat /\
  count is_callback evs =
    (count (is_stat link_recv) evs + count is_free evs)%nat.

(** The write request for one segment. *)
Definition write_of (q : pbuf) : event := NetWrite (payload q) (len q).

(** The write requests of a trace: the bytes at the data pointer and the
    length asked for. *)
Definition net_writes (evs : list event) : list (list byte * Z) :=
  omap (fun e => match e with NetWrite d n => Some (d, n) | _ => None end) evs.
End Driver.

(** *** A stack to run the driver against

    Buffers are chains of pool segments of [bufsize] bytes, zero-filled;
    [layout] gives the segment lengths for a requested length (none when the
    pool is exhausted), [accept] tells which frames the worker's queue
    takes, and [pbuf_header] has nothing to do as there is no padding. *)

Fixpoint pbuf_of_layout (lens : list Z) : option pbuf :=
  match lens with
  | [] => None
  | l :: lens =>
      let nx := pbuf_of_layout lens in
      Some (Pbuf nx (replicate (Z.to_nat l) Byte.x00) l
                 (l + from_option tot_len 0 nx))
  end.

Definition pool_layout (bufsize : Z) (length : Z) : list Z :=
  replicate (Z.to_nat (length / bufsize)) bufsize ++
  (if length mod bufsize =? 0 then [] else [length mod bufsize]).

Definition scripted_platform (rx_buf_len : Z) (layout : Z -> list Z)
    (accept : pbuf -> bool) : Platform := {|
  RX_BUF_LEN := rx_buf_len;
  ETH_PAD_SIZE := 0;
  stack_t := unit;
  pbuf_alloc := fun n st => (pbuf_of_layout (layout n), st);
  pbuf_header := fun p _ => p;
  pbuf_free := fun _ st => st;
  tcpip_callback_with_block := fun p st =>
    (if accept p then ERR_OK else ERR_MEM, st)
|}.

(** A stack with pool segments of 592 bytes (the default size of the pool
    of lwIP), a worker queue that takes every frame, and the world of a
    running driver with the frames [pending] waiting in the hypervisor. *)
Definition pool592 : Platform :=
  scripted_platform 2048 (pool_layout 592) (fun _ => true).

Definition running `{Platform} (st : stack_t) (pending : list (list byte))
  : world :=
  {| uhyve_net_init_ok := 1; rx_buf := replicate 2048 Byte.x00;
     host_rx := pending; stack := st; trace := [] |}.

(** A stack whose pool has no buffer for frames longer than 64 bytes. *)
Definition short_pool : Platform :=
  scripted_platform 2048
    (fun n => if n <=? 64 then [n] else []) (fun _ => true).

(** *** Initialisation: the hardware address *)

Definition ETHARP_HWADDR_LEN : Z := 6.

Definition ord (c : ascii) : Z := Z.of_N (N_of_ascii c).

Definition dehex (c : ascii) : Z :=
  if (ord "0" <=? ord c) && (ord c <=? ord "9") then u8 (ord c - ord "0")
  else if (ord "a" <=? ord c) && (ord c <=? ord "f") then
    u8 (10 + (ord c - ord "a"))
  else if (ord "A" <=? ord c) && (ord c <=? ord "F") then
    u8 (10 + (ord c - ord "A"))
  else 0.

(** [*hermit_mac]; a read past the end of the string yields NUL. *)
Definition deref (hermit_mac : list ascii) : ascii := hd zero hermit_mac.

(** [for (tmp8=0; tmp8 < ETHARP_HWADDR_LEN; tmp8++)] of
    [uhyve_netif_init], from [tmp8] on: [todo] iterations are left. *)
Fixpoint hwaddr_loop (todo : nat) (tmp8 : Z) (hermit_mac : list ascii)
    (hwaddr : list Z) : list Z :=
  match todo with
  | O => hwaddr
  | S todo =>
      let i := Z.to_nat tmp8 in
      let hwaddr := <[i := u8 (Z.shiftl (dehex (deref hermit_mac)) 4)]> hwaddr in
      let hermit_mac := tl hermit_mac in
      let hwaddr :=
        <[i := u8 (Z.lor (hwaddr !!! i) (dehex (deref hermit_mac)))]> hwaddr in
      let hermit_mac := tl hermit_mac in
      let hermit_mac := tl hermit_mac in
      hwaddr_loop todo (u8 (tmp8 + 1)) hermit_mac hwaddr
  end.

(** The hardware-address part of [uhyve_netif_init]: [netif->hwaddr]
    after the loop, given the string [hermit_net_mac_str()] returned. *)
Definition uhyve_netif_init_hwaddr (mac_str : list ascii) (hwaddr : list Z)
  : list Z :=
  hwaddr_loop (Z.to_nat ETHARP_HWADDR_LEN) 0 mac_str hwaddr.

(** The specification's reading of a hardware-address string: the value
    of a pair of hexadecimal digits, by the Standard Library's digit
    table, and the text of six pairs with colons between them. *)
Definition hex_pair_value (hl : ascii * ascii) : option Z :=
  h ← HexString.ascii_to_digit (fst hl);
  l ← HexString.ascii_to_digit (snd hl);
  Some (Z.of_N (16 * h + l)).

Fixpoint mac_text (pairs : list (ascii * ascii)) : list ascii :=
  match pairs with
  | [] => []
  | [(h, l)] => [h; l]
  | (h, l) :: pairs => h :: l :: ":"%char :: mac_text pairs
  end.

End UhyveNet.

(** ** sys_arch.c: successive calls of the generator *)

Module RandSeq.

(** [n] calls of [lwip_rand()] in a row: the values returned, in order,
    and the seed left in [rand_seed]. *)
Fixpoint lwip_rand_n (long_bits : Z) (hw : Rand.cpu) (n : nat) (rand_seed : Z)
  : option (list Z * Z) :=
  match n with
  | O => Some ([], rand_seed)
  | S n =>
      '(r, rand_seed) ← Rand.lwip_rand long_bits hw rand_seed;
      '(rs, rand_seed) ← lwip_rand_n long_bits hw n rand_seed;
      Some (r :: rs, rand_seed)
  end.

End RandSeq.

(** ** sys_arch.c: the clock *)

Module Clock.

Section Clock.
(** Ticks per second of the kernel's timer ([TIMER_FREQ] of hermit/time.h). *)
Variable TIMER_FREQ : Z.

(** [sys_now()], given what [get_clock_tick()] returns (a [uint64_t]): the
    arithmetic is in 64 bits, the result is a [u32_t]. *)
Definition sys_now (clock_tick : Z) : Z :=
  u32 (u64 (u64 clock_tick / TIMER_FREQ * 1000)).

Definition sys_jiffies (clock_tick : Z) : Z :=
  u32 (u64 (u64 clock_tick / TIMER_FREQ * 1000)).
End Clock.

End Clock.

(** ** sys_arch.c: semaphores and mutexes *)

Module Sem.

(** The kernel's counting semaphore as [sys_arch.c] calls it; every call
    returns an [int] status.  [sem_wait] takes a timeout in milliseconds,
    0 for none. *)
Class KernelSem : Type := {
  sem_t : Type;
  sem_init : sem_t -> Z -> Z * sem_t;
  sem_destroy : sem_t -> Z * sem_t;
  sem_post : sem_t -> Z * sem_t;
  sem_wait : sem_t -> Z -> Z * sem_t
}.

(** Modelled from the spec: the live-object counters behind
    [SYS_STATS_INC_USED(sem)], [SYS_STATS_DEC(sem.used)] and
    [SYS_STATS_INC_USED(mutex)] of the absent lwip/stats.h ("increments a
    live-object counter").  They count without a width: the unsigned
    counter of the program, 16 bits wide unless [LWIP_STATS_LARGE] is set,
    holds the count modulo 2^16, so that one off a count of 0 reads
    65535 there. *)
Record sem_stats : Type := SemStats { sem_used : Z; mutex_used : Z }.

Definition SYS_ARCH_TIMEOUT : Z := 0xffffffff.

Section SysSem.
Context `{KernelSem}.

Record sys_sem_t : Type := SysSem {
  sem : sem_t;
  valid : Z
}.

Definition sys_sem_free (s : option sys_sem_t) (st : sem_stats)
  : option sys_sem_t * sem_stats :=
  match s with
  | None => (None, st)
  | Some s =>
      (Some {| sem := snd (sem_destroy (sem s)); valid := FALSE |},
       {| sem_used := sem_used st - 1; mutex_used := mutex_used st |})
  end.

Definition sys_sem_valid (s : option sys_sem_t) : Z :=
  match s with
  | None => FALSE
  | Some s => valid s
  end.

(** [sys_sem_new(s, count)] with [count] a [u8_t]. *)
Definition sys_sem_new (s : option sys_sem_t) (count : Z) (st : sem_stats)
  : err_t * option sys_sem_t * sem_stats :=
  match s with
  | None => (ERR_VAL, None, st)
  | Some s =>
      let '(err, k) := sem_init (sem s) (u8 count) in
      if err <? 0 then (ERR_VAL, Some {| sem := k; valid := valid s |}, st)
      else
        (ERR_OK, Some {| sem := k; valid := TRUE |},
         {| sem_used := sem_used st + 1; mutex_used := mutex_used st |})
  end.

Definition sys_sem_set_invalid (s : sys_sem_t) : sys_sem_t :=
  {| sem := sem s; valid := FALSE |}.

Definition sys_sem_signal (s : sys_sem_t) : sys_sem_t :=
  {| sem := snd (sem_post (sem s)); valid := valid s |}.

Definition sys_arch_sem_wait (s : sys_sem_t) (timeout : Z) : Z * sys_sem_t :=
  let '(err, k) := sem_wait (sem s) timeout in
  let s := {| sem := k; valid := valid s |} in
  if err =? 0 then (0, s) else (SYS_ARCH_TIMEOUT, s).

(** A [sys_mutex_t] is a kernel semaphore. *)
Definition sys_mutex_lock (mutex : sem_t) : sem_t := snd (sem_wait mutex 0).

Definition sys_mutex_unlock (mutex : sem_t) : sem_t := snd (sem_post mutex).

Definition sys_mutex_new (m : option sem_t) (st : sem_stats)
  : err_t * option sem_t * sem_stats :=
  match m with
  | None => (ERR_VAL, None, st)
  | Some m =>
      (ERR_OK, Some (snd (sem_init m 1)),
       {| sem_used := sem_used st; mutex_used := mutex_used st + 1 |})
  end.
End SysSem.

(** A counting semaphore for examples: the count, and whether the
    semaphore is initialised.  A wait on a zero count times out. *)
Definition counting_sem : KernelSem := {|
  sem_t := option Z;
  sem_init := fun _ count => (0, Some count);
  sem_destroy := fun _ => (0, None);
  sem_post := fun s =>
    match s with
    | Some n => (0, Some (n + 1))
    | None => (-1, None)
    end;
  sem_wait := fun s _ =>
    match s with
    | Some n => if 0 <? n then (0, Some (n - 1)) else (-1, Some n)
    | None => (-1, None)
    end
|}.

(** A kernel out of semaphores: every initialisation fails. *)
Definition no_sem : KernelSem := {|
  sem_t := unit;
  sem_init := fun s _ => (-1, s);
  sem_destroy := fun s => (-1, s);
  sem_post := fun s => (-1, s);
  sem_wait := fun s _ => (-1, s)
|}.

End Sem.

(** ** sys_arch.c: the socket calls *)

Module Sockets.

(** User pointers (addresses, lengths, buffers) go to the stack as they
    come; what they point to is part of the stack's state. *)
Definition ptr : Type := Z.

(** The stack's socket layer, call by call.  [errno] is the stack's error
    code after a call; [LWIP_FD_BIT] and [ENOPROTOOPT] are the constants of
    the absent headers. *)
Class LwipApi : Type := {
  api_t : Type;
  errno : api_t -> Z;
  LWIP_FD_BIT : Z;
  ENOPROTOOPT : Z;
  lwip_accept : Z -> ptr -> ptr -> api_t -> Z * api_t;
  lwip_bind : Z -> ptr -> Z -> api_t -> Z * api_t;
  lwip_getpeername : Z -> ptr -> ptr -> api_t -> Z * api_t;
  lwip_getsockname : Z -> ptr -> ptr -> api_t -> Z * api_t;
  lwip_getsockopt : Z -> Z -> Z -> ptr -> ptr -> api_t -> Z * api_t;
  lwip_setsockopt : Z -> Z -> Z -> ptr -> Z -> api_t -> Z * api_t;
  lwip_connect : Z -> ptr -> Z -> api_t -> Z * api_t;
  lwip_listen : Z -> Z -> api_t -> Z * api_t;
  lwip_recv : Z -> ptr -> Z -> Z -> api_t -> Z * api_t;
  lwip_recvfrom : Z -> ptr -> Z -> Z -> ptr -> ptr -> api_t -> Z * api_t;
  lwip_send : Z -> ptr -> Z -> Z -> api_t -> Z * api_t;
  lwip_sendto : Z -> ptr -> Z -> Z -> ptr -> Z -> api_t -> Z * api_t;
  lwip_socket : Z -> Z -> Z -> api_t -> Z * api_t;
  lwip_fcntl : Z -> Z -> Z -> api_t -> Z * api_t;
  lwip_shutdown : Z -> Z -> api_t -> Z * api_t
}.

Section Calls.
Context `{LwipApi}.

(** The stack and the C library's error slot ([*libc_errno()]). *)
Record proc : Type := Proc {
  api : api_t;
  getreent : Z
}.

(** The two endings of a call: fail with -1 and the error code copied,
    or return a value with the error slot as it was. *)
Definition fail_with (st : api_t) : Z * proc :=
  (-1, {| api := st; getreent := errno st |}).
Definition ok_with (ret : Z) (st : api_t) (ps : proc) : Z * proc :=
  (ret, {| api := st; getreent := getreent ps |}).

Definition accept (s : Z) (addr addrlen : ptr) (ps : proc) : Z * proc :=
  let '(fd, st) :=
    lwip_accept (Z.land s (Z.lnot LWIP_FD_BIT)) addr addrlen (api ps) in
  if fd <? 0 then fail_with st else ok_with (Z.lor fd LWIP_FD_BIT) st ps.

Definition bind (s : Z) (name : ptr) (namelen : Z) (ps : proc) : Z * proc :=
  let '(ret, st) :=
    lwip_bind (Z.land s (Z.lnot LWIP_FD_BIT)) name namelen (api ps) in
  if negb (ret =? 0) then fail_with st else ok_with 0 st ps.

Definition getpeername (s : Z) (name namelen : ptr) (ps : proc) : Z * proc :=
  let '(ret, st) :=
    lwip_getpeername (Z.land s (Z.lnot LWIP_FD_BIT)) name namelen (api ps) in
  if negb (ret =? 0) then fail_with st else ok_with 0 st ps.

Definition getsockname (s : Z) (name namelen : ptr) (ps : proc) : Z * proc :=
  let '(ret, st) :=
    lwip_getsockname (Z.land s (Z.lnot LWIP_FD_BIT)) name namelen (api ps) in
  if negb (ret =? 0) then fail_with st else ok_with 0 st ps.

Definition getsockopt (s level optname : Z) (optval optlen : ptr) (ps : proc)
  : Z * proc :=
  let '(ret, st) :=
    lwip_getsockopt (Z.land s (Z.lnot LWIP_FD_BIT)) level optname optval optlen
      (api ps) in
  if negb (ret =? 0) then
    if errno st =? ENOPROTOOPT then ok_with 0 st ps else fail_with st
  else ok_with 0 st ps.

Definition setsockopt (s level optname : Z) (optval : ptr) (optlen : Z)
    (ps : proc) : Z * proc :=
  let '(ret, st) :=
    lwip_setsockopt (Z.land s (Z.lnot LWIP_FD_BIT)) level optname optval optlen
      (api ps) in
  if negb (ret =? 0) then
    if errno st =? ENOPROTOOPT then ok_with 0 st ps else fail_with st
  else ok_with 0 st ps.

Definition connect (s : Z) (name : ptr) (namelen : Z) (ps : proc) : Z * proc :=
  let '(ret, st) :=
    lwip_connect (Z.land s (Z.lnot LWIP_FD_BIT)) name namelen (api ps) in
  if negb (ret =? 0) then fail_with st else ok_with 0 st ps.

Definition listen (s backlog : Z) (ps : proc) : Z * proc :=
  let '(ret, st) :=
    lwip_listen (Z.land s (Z.lnot LWIP_FD_BIT)) backlog (api ps) in
  if negb (ret =? 0) then fail_with st else ok_with 0 st ps.

Definition recv (s : Z) (mem : ptr) (len flags : Z) (ps : proc) : Z * proc :=
  let '(ret, st) :=
    lwip_recv (Z.land s (Z.lnot LWIP_FD_BIT)) mem len flags (api ps) in
  if ret <? 0 then fail_with st else ok_with ret st ps.

Definition recvfrom (s : Z) (mem : ptr) (len flags : Z) (from fromlen : ptr)
    (ps : proc) : Z * proc :=
  let '(ret, st) :=
    lwip_recvfrom (Z.land s (Z.lnot LWIP_FD_BIT)) mem len flags from fromlen
      (api ps) in
  if ret <? 0 then fail_with st else ok_with ret st ps.

Definition send (s : Z) (dataptr : ptr) (size flags : Z) (ps : proc)
  : Z * proc :=
  let '(ret, st) :=
    lwip_send (Z.land s (Z.lnot LWIP_FD_BIT)) dataptr size flags (api ps) in
  if ret <? 0 then fail_with st else ok_with ret st ps.

Definition sendto (s : Z) (dataptr : ptr) (size flags : Z) (to : ptr)
    (tolen : Z) (ps : proc) : Z * proc :=
  let '(ret, st) :=
    lwip_sendto (Z.land s (Z.lnot LWIP_FD_BIT)) dataptr size flags to tolen
      (api ps) in
  if ret <? 0 then fail_with st else ok_with ret st ps.

Definition socket (domain type protocol : Z) (ps : proc) : Z * proc :=
  let '(fd, st) := lwip_socket domain type protocol (api ps) in
  if fd <? 0 then fail_with st else ok_with (Z.lor fd LWIP_FD_BIT) st ps.

Definition fcntl (s cmd val : Z) (ps : proc) : Z * proc :=
  let '(ret, st) :=
    lwip_fcntl (Z.land s (Z.lnot LWIP_FD_BIT)) cmd val (api ps) in
  ok_with ret st ps.

Definition shutdown (socket how : Z) (ps : proc) : Z * proc :=
  let '(ret, st) :=
    lwip_shutdown (Z.land socket (Z.lnot LWIP_FD_BIT)) how (api ps) in
  ok_with ret st ps.
End Calls.

(** A stack for examples.  Its state is the list of descriptors in use
    and its error code; [lwip_socket] hands out the lowest descriptor not
    in use, the other calls succeed on a descriptor in use and fail with
    error 9 on any other, except the socket options, which the stack does
    not have: they fail with [ENOPROTOOPT] = 109.  The tag bit is bit 30. *)
Definition on_open (fd : Z) (ret : Z) (st : list Z * Z) : Z * (list Z * Z) :=
  if bool_decide (fd ∈ fst st) then (ret, st) else (-1, (fst st, 9)).

Definition toy_stack : LwipApi := {|
  api_t := list Z * Z;
  errno := snd;
  LWIP_FD_BIT := 2 ^ 30;
  ENOPROTOOPT := 109;
  lwip_accept := fun s _ _ st =>
    if bool_decide (s ∈ fst st) then
      (1 + foldr Z.max 0 (fst st),
       (1 + foldr Z.max 0 (fst st) :: fst st, snd st))
    else (-1, (fst st, 9));
  lwip_bind := fun s _ _ st => on_open s 0 st;
  lwip_getpeername := fun s _ _ st => on_open s 0 st;
  lwip_getsockname := fun s _ _ st => on_open s 0 st;
  lwip_getsockopt := fun s _ _ _ _ st => on_open s (-1) (fst st, 109);
  lwip_setsockopt := fun s _ _ _ _ st => on_open s (-1) (fst st, 109);
  lwip_connect := fun s _ _ st => on_open s 0 st;
  lwip_listen := fun s _ st => on_open s 0 st;
  lwip_recv := fun s _ len _ st => on_open s len st;
  lwip_recvfrom := fun s _ len _ _ _ st => on_open s len st;
  lwip_send := fun s _ size _ st => on_open s size st;
  lwip_sendto := fun s _ size _ _ _ st => on_open s size st;
  lwip_socket := fun _ _ _ st =>
    (1 + foldr Z.max 0 (fst st), (1 + foldr Z.max 0 (fst st) :: fst st, snd st));
  lwip_fcntl := fun s _ _ st => on_open s 0 st;
  lwip_shutdown := fun s _ st => on_open s 0 st
|}.

(** *** Name resolution: [gethostname] *)

(** [strncpy(dst, src, n)] for a string [src] given without its
    terminator: the first [n] characters of [src] followed by NULs replace
    the first [n] characters at [dst]. *)
Definition strncpy (dst : list ascii) (src : list ascii) (n : nat)
  : list ascii :=
  take n (src ++ replicate n zero) ++ drop n dst.

(** [gethostname(name, len)]: the status and the characters at [name]. *)
Definition gethostname (name : list ascii) (len : Z) : Z * list ascii :=
  (0, strncpy name (list_ascii_of_string "hermit") (Z.to_nat len)).

End Sockets.

(** ** uhyve-net.c: what the poll asks for, and initialisation *)

Module UhyveMore.
Import UhyveNet.

(** The lengths asked for by the read requests of a trace, and the lengths
    asked of the buffer pool, in order. *)
Definition net_reads (evs : list event) : list Z :=
  omap (fun e => match e with NetRead n => Some n | _ => None end) evs.
Definition net_allocs (evs : list event) : list Z :=
  omap (fun e => match e with PbufAlloc n => Some n | _ => None end) evs.

(** The value of [len] after each successful read of a poll that starts
    with [len] and finds the frames [pending]: the length stored by the
    read, plus the padding.  [len] is set once, before the loop, and is the
    in-out argument of every read. *)
Fixpoint len_after_reads (pad len : Z) (pending : list (list byte)) : list Z :=
  match pending with
  | [] => []
  | f :: pending =>
      let len := Z.of_nat (length (take (Z.to_nat len) f)) + pad in
      len :: len_after_reads pad len pending
  end.

(** *** [uhyve_netif_init] *)

(** The functions a [struct netif] can point to. *)
Inductive netif_fn : Type := etharp_output | uhyve_netif_output_fn | ethip6_output.

(** The constants of lwip/netif.h and the options of the stack that
    [uhyve_netif_init] depends on.  [mib2_t] and [ip6_t] are the parts of a
    [struct netif] that only [NETIF_INIT_SNMP] and
    [netif_create_ip6_linklocal_address] write; the latter reads the
    hardware address. *)
Class NetifOptions : Type := {
  NETIF_FLAG_BROADCAST : Z;
  NETIF_FLAG_ETHARP : Z;
  NETIF_FLAG_IGMP : Z;
  NETIF_FLAG_LINK_UP : Z;
  NETIF_FLAG_MLD6 : Z;
  LWIP_IPV6 : bool;
  mib2_t : Type;
  ip6_t : Type;
  NETIF_INIT_SNMP : Z -> mib2_t -> mib2_t;
  netif_create_ip6_linklocal_address : list Z -> Z -> ip6_t -> ip6_t
}.

Definition UHYVE_IRQ : Z := 11.

Section Init.
Context `{Platform} `{NetifOptions}.

(** The fields of [struct netif] the driver writes. *)
Record netif : Type := Netif {
  state : bool;                     (* netif->state points to the device *)
  hwaddr_len : Z;
  hwaddr : list Z;
  name : ascii * ascii;
  num : Z;
  output : option netif_fn;
  linkoutput : option netif_fn;
  mtu : Z;                          (* u16_t *)
  flags : Z;                        (* u8_t *)
  mib2 : mib2_t;
  output_ip6 : option netif_fn;
  ip6_autoconfig_enabled : Z;
  ip6 : ip6_t
}.

(** The driver's static variables next to those of [world]: whether
    [uhyve_netif] and [mynetif] are set, and the line a handler is
    installed on. *)
Record statics : Type := Statics {
  uhyve_netif : bool;
  mynetif : bool;
  irq_line : option Z
}.

(** [hermit_net_mac_str()]: the 18 bytes the hypervisor gives. *)
Definition hermit_net_mac_str (host_mac : list ascii) : list ascii :=
  take 18 host_mac.

Definition set_init_ok (w : world) : world :=
  {| uhyve_net_init_ok := 1; rx_buf := rx_buf w; host_rx := host_rx w;
     stack := stack w; trace := trace w |}.

(** [uhyve_netif_init(netif)], with the string the hypervisor has for the
    hardware address.  An [LWIP_ASSERT] that does not hold ends the model
    with [None]: what happens then is up to the platform's assertion
    handler.  Debug output ([LWIP_DEBUGF]) is not modelled, and
    [uhyve_netif->ethaddr], an alias of [netif->hwaddr], is not kept. *)
Definition uhyve_netif_init (host_mac : list ascii) (nif : option netif)
    (s : statics) (w : world) : option (err_t * netif * statics * world) :=
  match nif with
  | None => None                    (* LWIP_ASSERT("netif != NULL") *)
  | Some nif =>
      let w := snd (kprintf "uhyve_netif_init: Found uhyve_net interface" [] w) in
      if uhyve_netif s then None    (* LWIP_ASSERT("uhyve_netif == NULL") *)
      else
        let s := {| uhyve_netif := true; mynetif := true;
                    irq_line := irq_line s |} in
        let hw := uhyve_netif_init_hwaddr (hermit_net_mac_str host_mac)
                    (hwaddr nif) in
        let w := snd (kprintf "uhye_netif uses irq %d" [UHYVE_IRQ] w) in
        let s := {| uhyve_netif := uhyve_netif s; mynetif := mynetif s;
                    irq_line := Some UHYVE_IRQ |} in
        let nif :=
          {| state := true;
             hwaddr_len := ETHARP_HWADDR_LEN;
             hwaddr := hw;
             name := ("e", "n")%char;
             num := 0;
             output := Some etharp_output;
             linkoutput := Some uhyve_netif_output_fn;
             mtu := 32768;
             flags :=
               u8 (Z.lor (flags nif)
                     (Z.lor (Z.lor (Z.lor (Z.lor NETIF_FLAG_BROADCAST
                                                  NETIF_FLAG_ETHARP)
                                           NETIF_FLAG_IGMP)
                                    NETIF_FLAG_LINK_UP)
                            NETIF_FLAG_MLD6));
             mib2 := NETIF_INIT_SNMP 1000 (mib2 nif);
             output_ip6 :=
               if LWIP_IPV6 then Some ethip6_output else output_ip6 nif;
             ip6_autoconfig_enabled :=
               if LWIP_IPV6 then 1 else ip6_autoconfig_enabled nif;
             ip6 :=
               if LWIP_IPV6 then
                 netif_create_ip6_linklocal_address hw 1 (ip6 nif)
               else ip6 nif |} in
        let w := snd (kprintf "uhyve_netif_init: OK" [] w) in
        let w := set_init_ok w in
        let w := snd (uhyve_netif_poll w) in
        Some (ERR_OK, nif, s, w)
  end.
End Init.

(** Options for examples: the flag values of lwIP 2, no IPv6, nothing
    kept for SNMP. *)
Definition plain_options : NetifOptions := {|
  NETIF_FLAG_BROADCAST := 0x02;
  NETIF_FLAG_ETHARP := 0x08;
  NETIF_FLAG_IGMP := 0x20;
  NETIF_FLAG_LINK_UP := 0x04;
  NETIF_FLAG_MLD6 := 0x40;
  LWIP_IPV6 := false;
  mib2_t := unit;
  ip6_t := unit;
  NETIF_INIT_SNMP := fun _ m => m;
  netif_create_ip6_linklocal_address := fun _ _ a => a
|}.

End UhyveMore.

(** ** uhyve-net.c: what becomes of each received frame *)

Module UhyveTrace.
Import UhyveNet.

(** What the answers of the stack make of a received frame: the pool has
    no buffer for it; or the worker takes the buffer [p] the frame was
    copied to; or the worker refuses that buffer. *)
Inductive rx_fate : Type :=
| NoBuffer
| Accepted (p : pbuf)
| Refused (p : pbuf).

(** A frame of one invocation of the poll: the length its read asked for,
    the value of [len] after the read and the padding (the length asked of
    the pool, before its conversion to [u16_t]), and its fate. *)
Record rx_outcome : Type := RxOutcome {
  asked : Z;
  stored : Z;
  fate : rx_fate
}.

Section Outcomes.
Context `{Platform}.

(** The outcomes of the frames [pending], in order, for a poll whose next
    read asks for [len] bytes, with [rx] in the receive buffer and the
    stack in state [st]: each frame goes to the receive buffer, cut to the
    length asked for; the pool is asked; a buffer obtained is filled by the
    copy loop and offered to the worker, and freed when refused. *)
Fixpoint rx_outcomes (len : Z) (rx : list byte) (st : stack_t)
    (pending : list (list byte)) : list rx_outcome :=
  match pending with
  | [] => []
  | f :: pending =>
      let d := take (Z.to_nat len) f in
      let rx := d ++ drop (length d) rx in
      let len' := Z.of_nat (length d) + ETH_PAD_SIZE in
      match pbuf_alloc (u16 len') st with
      | (None, st) =>
          RxOutcome len len' NoBuffer :: rx_outcomes len' rx st pending
      | (Some p, st) =>
          let p := reclaim_padding (rx_copy rx 0 (drop_padding p)) in
          let '(e, st) := tcpip_callback_with_block p st in
          if decide (e = ERR_OK) then
            RxOutcome len len' (Accepted p) :: rx_outcomes len' rx st pending
          else
            RxOutcome len len' (Refused p)
              :: rx_outcomes len' rx (pbuf_free p st) pending
      end
  end.
End Outcomes.

(** The events of one frame. *)
Definition frame_events (o : rx_outcome) : list event :=
  [NetRead (asked o); PbufAlloc (u16 (stored o))] ++
  match fate o with
  | NoBuffer =>
      [Kprintf "uhyve_netif_poll: not enough memory!" [];
       LinkStatsInc link_memerr; LinkStatsInc link_drop]
  | Accepted p => [TcpipCallback p; LinkStatsInc link_recv]
  | Refused p => [TcpipCallback p; LinkStatsInc link_drop; PbufFree p]
  end.

(** The length the read after the last frame asks for. *)
Definition last_len (len : Z) (outs : list rx_outcome) : Z :=
  default len (last (map stored outs)).

(** The buffers offered to the worker, those it took, those it refused,
    and the frames that found no buffer. *)
Definition offered (outs : list rx_outcome) : list pbuf :=
  omap (fun o => match fate o with
                 | NoBuffer => None
                 | Accepted p | Refused p => Some p
                 end) outs.
Definition accepted (outs : list rx_outcome) : list pbuf :=
  omap (fun o => match fate o with Accepted p => Some p | _ => None end) outs.
Definition refused (outs : list rx_outcome) : list pbuf :=
  omap (fun o => match fate o with Refused p => Some p | _ => None end) outs.
Definition starved (outs : list rx_outcome) : list rx_outcome :=
  List.filter (fun o => match fate o with NoBuffer => true | _ => false end)
              outs.

(** The buffers a trace hands to the worker, and those it frees. *)
Definition handoffs (evs : list event) : list pbuf :=
  omap (fun e => match e with TcpipCallback p => Some p | _ => None end) evs.
Definition frees (evs : list event) : list pbuf :=
  omap (fun e => match e with PbufFree p => Some p | _ => None end) evs.

End UhyveTrace.
(** * Properties of the pseudo-random generator *)

Section RandProofs.
Import Rand.
Variable long_bits : Z.
Hypothesis long_has_32_bits : 32 <= long_bits.

Lemma long_range_covers_int32 :
  LONG_MIN long_bits <= - 2 ^ 31 /\ 2 ^ 31 - 1 <= LONG_MAX long_bits.
Proof.
  unfold LONG_MIN, LONG_MAX.
  assert (2 ^ 31 <= 2 ^ (long_bits - 1)) by (apply Z.pow_le_mono_r; lia).
  lia.
Qed.

Lemma as_long_int32 (z : Z) :
  - 2 ^ 31 <= z <= 2 ^ 31 - 1 -> as_long long_bits z = Some z.
Proof.
  intros Hz. pose proof long_range_covers_int32 as [Hlo Hhi].
  unfold as_long.
  destruct (Z.leb_spec (LONG_MIN long_bits) z); [|lia].
  destruct (Z.leb_spec z (LONG_MAX long_bits)); [|lia].
  reflexivity.
Qed.

Lemma long_of_uint_int32 (u : Z) :
  0 <= u <= 2 ^ 31 - 1 -> long_of_uint long_bits u = u.
Proof.
  intros Hu. unfold long_of_uint.
  assert (2 ^ 31 <= 2 ^ (long_bits - 1)) by (apply Z.pow_le_mono_r; lia).
  assert (2 ^ long_bits = 2 * 2 ^ (long_bits - 1)) as Hdouble.
  { rewrite <- Z.pow_succ_r by lia. f_equal. lia. }
  rewrite Z.mod_small by lia. lia.
Qed.

(** Schrage's step on a seed in the range of the recurrence: every
    intermediate value fits in 32 bits, and the outcome is the product
    reduced modulo m. *)
Lemma schrage_step (s : Z) :
  1 <= s <= 2147483646 ->
  __rand long_bits s = Some (minimal_standard s, minimal_standard s).
Proof.
  intros Hs. unfold __rand.
  rewrite long_of_uint_int32 by lia.
  destruct (Z.eqb_spec s 0) as [|_]; [lia|].
  unfold ldiv, lmul, lsub, ladd. cbn [Z.eqb].
  rewrite Z.quot_div_nonneg by lia.
  pose proof (Z.div_mod s 127773 ltac:(lia)) as Hdm.
  pose proof (Z.mod_pos_bound s 127773 ltac:(lia)) as Hr.
  assert (0 <= s / 127773 <= 16807) as Hk.
  { split; [apply Z.div_pos; lia|].
    apply Z.lt_succ_r, Z.div_lt_upper_bound; lia. }
  set (k := s / 127773) in *. set (r := s mod 127773) in *.
  rewrite (as_long_int32 k) by lia. cbn [mbind option_bind].
  rewrite (as_long_int32 (k * 127773)) by lia. cbn [mbind option_bind].
  replace (s - k * 127773) with r by lia.
  rewrite (as_long_int32 r) by lia. cbn [mbind option_bind].
  rewrite (as_long_int32 (16807 * r)) by lia. cbn [mbind option_bind].
  rewrite (as_long_int32 (2836 * k)) by lia. cbn [mbind option_bind].
  rewrite (as_long_int32 (16807 * r - 2836 * k)) by lia.
  cbn [mbind option_bind].
  set (t := 16807 * r - 2836 * k).
  assert (16807 * s = 2147483647 * k + t) as Hprod by (unfold t; lia).
  assert (- 2147483647 < t < 2147483647) as Ht by (unfold t; lia).
  assert (forall x, 0 <= x < 2147483647 ->
            Z.land x RAND_MAX = x /\ u32 x = x) as Hfit.
  { intros x Hx. split.
    - change RAND_MAX with (Z.ones 31). rewrite Z.land_ones by lia.
      apply Z.mod_small. lia.
    - apply Z.mod_small. lia. }
  destruct (Z.ltb_spec t 0) as [Hneg|Hpos].
  - rewrite (as_long_int32 (t + 2147483647)) by lia. cbn [mbind option_bind].
    assert (minimal_standard s = t + 2147483647) as ->.
    { unfold minimal_standard. symmetry.
      apply (Z.mod_unique_pos _ _ (k - 1)); lia. }
    destruct (Hfit (t + 2147483647)) as [-> ->]; [lia|]. reflexivity.
  - cbn [mbind option_bind].
    assert (minimal_standard s = t) as ->.
    { unfold minimal_standard. symmetry.
      apply (Z.mod_unique_pos _ _ k); lia. }
    destruct (Hfit t) as [-> ->]; [lia|]. reflexivity.
Qed.

(** The multiplier is invertible modulo m, so the recurrence has no zero
    but zero. *)
Lemma minimal_standard_range (s : Z) :
  1 <= s <= 2147483646 -> 1 <= minimal_standard s <= 2147483646.
Proof.
  intros Hs. unfold minimal_standard.
  pose proof (Z.mod_pos_bound (16807 * s) 2147483647 ltac:(lia)) as Hb.
  pose proof (Z.div_mod (16807 * s) 2147483647 ltac:(lia)) as Hdm.
  enough ((16807 * s) mod 2147483647 <> 0) by lia.
  intros Hz. rewrite Hz in Hdm.
  set (j := 16807 * s / 2147483647) in *.
  (* 1407677000 * 16807 = 1 + 11017 * 2147483647 *)
  assert (s = 2147483647 * (1407677000 * j - 11017 * s)) by lia.
  lia.
Qed.

(** With a zero seed the constant takes its place. *)
Lemma rand_zero_seed :
  __rand long_bits 0 =
  Some (minimal_standard 0x12345987, minimal_standard 0x12345987).
Proof.
  pose proof (schrage_step 0x12345987 ltac:(lia)) as Hstep.
  unfold __rand in *.
  rewrite long_of_uint_int32 in * by lia.
  exact Hstep.
Qed.

Lemma rand_in_range (s : Z) :
  0 <= s <= 2147483646 ->
  exists s', __rand long_bits s = Some (s', s') /\ 1 <= s' <= 2147483646 /\
             (s = 0 -> s' = minimal_standard 0x12345987).
Proof.
  intros Hs. destruct (decide (s = 0)) as [->|Hnz].
  - eexists. split; [apply rand_zero_seed|].
    split; [apply minimal_standard_range; lia|done].
  - eexists. split; [apply schrage_step; lia|].
    split; [apply minimal_standard_range; lia|done].
Qed.

(** Whatever [rand_seed] holds lies in the range of the recurrence, or is
    the initial 0. *)
Lemma stored_seed_range (s : Z) :
  stored_seed long_bits s -> 0 <= s <= 2147483646.
Proof.
  induction 1 as [|tsc|hw s r s' _ IH Hstep].
  - lia.
  - unfold __rand_init, u32.
    pose proof (Z.mod_pos_bound (u64 tsc) 127 ltac:(lia)).
    rewrite Z.mod_small; lia.
  - unfold lwip_rand in Hstep. destruct (has_rdrand hw).
    + injection Hstep as _ <-. exact IH.
    + destruct (rand_in_range s IH) as (s2 & Hs2 & Hrange & _).
      rewrite Hs2 in Hstep. injection Hstep as _ <-. lia.
Qed.

(** C6: for every seed s with 1 <= s <= 2147483646, one call of [__rand]
    returns a result (no operation on [long] overflows, for any width of
    [long] of at least 32 bits) and stores exactly (16807 * s) mod
    2147483647 as the new seed: Schrage's computation with q = 127773 and
    r = 2836 equals the plain recurrence with multiplier 16807 and modulus
    2^31 - 1. *)
Theorem rand_schrage_refines_minimal_standard (s : Z) :
  1 <= s <= 2147483646 ->
  __rand long_bits s = Some (minimal_standard s, minimal_standard s) /\
  minimal_standard s = (16807 * s) mod (2 ^ 31 - 1).
Proof.
  intros Hs. split; [apply schrage_step; exact Hs|reflexivity].
Qed.

(** C7: on the software path of [lwip_rand], for every value [rand_seed]
    can hold, the call returns, the seed stored afterwards is not 0, and the
    returned value lies in [0, 2^31 - 1]; a stored 0 is replaced by the
    constant 0x12345987 before the recurrence is applied. *)
Theorem lwip_rand_zero_seed_never_persists (hw : cpu) (s : Z) :
  has_rdrand hw = false ->
  stored_seed long_bits s ->
  exists r s',
    lwip_rand long_bits hw s = Some (r, s') /\
    s' <> 0 /\ 0 <= r <= 2 ^ 31 - 1 /\
    (s = 0 -> s' = minimal_standard 0x12345987) /\
    stored_seed long_bits s'.
Proof.
  intros Hsoft Hstored.
  destruct (rand_in_range s (stored_seed_range s Hstored))
    as (s' & Hs' & Hrange & Hzero).
  assert (lwip_rand long_bits hw s = Some (s', s')) as Hcall.
  { unfold lwip_rand. rewrite Hsoft. exact Hs'. }
  exists s', s'. repeat split; try lia; try done.
  exact (stored_next long_bits hw s s' s' Hstored Hcall).
Qed.

End RandProofs.

Lemma rand_schrage_refines_minimal_standard_witness :
  Rand.__rand 64 1 = Some (Rand.minimal_standard 1, Rand.minimal_standard 1) /\
  Rand.minimal_standard 1 = (16807 * 1) mod (2 ^ 31 - 1).
Proof.
  apply (rand_schrage_refines_minimal_standard 64 ltac:(lia) 1). lia.
Defined.

Lemma lwip_rand_zero_seed_never_persists_witness :
  exists r s',
    Rand.lwip_rand 64 (Rand.Cpu false 0) 0 = Some (r, s') /\
    s' <> 0 /\ 0 <= r <= 2 ^ 31 - 1 /\
    (0 = 0 -> s' = Rand.minimal_standard 0x12345987) /\
    Rand.stored_seed 64 s'.
Proof.
  apply (lwip_rand_zero_seed_never_persists 64 ltac:(lia) (Rand.Cpu false 0) 0).
  - reflexivity.
  - apply Rand.stored_static.
Defined.

(** The bound on the stored seed matters: m itself is sent to 0. *)
Lemma rand_modulus_seed_is_lost :
  Rand.__rand 64 2147483647 = Some (0, 0).
Proof. reflexivity. Qed.

(** With a [long] of 64 bits the call returns on every value an
    [unsigned int] can hold, and what it returns is a 31-bit value. *)
Lemma rand_returns_int31 (s : Z) :
  0 <= s < 2 ^ 32 ->
  exists r s' : Z,
    Rand.__rand 64 s = Some (r, s') /\ 0 <= r <= 2 ^ 31 - 1 /\ 0 <= s' < 2 ^ 31.
Proof.
  intros Hs.
  assert (forall z, - 2 ^ 63 <= z <= 2 ^ 63 - 1 -> Rand.as_long 64 z = Some z)
    as Hfits.
  { intros z Hz. unfold Rand.as_long, Rand.LONG_MIN, Rand.LONG_MAX.
    destruct (Z.leb_spec (- 2 ^ (64 - 1)) z); [|lia].
    destruct (Z.leb_spec z (2 ^ (64 - 1) - 1)); [|lia]. reflexivity. }
  unfold Rand.__rand.
  assert (Rand.long_of_uint 64 s = s) as ->.
  { unfold Rand.long_of_uint. rewrite Z.mod_small; lia. }
  set (s0 := if s =? 0 then 0x12345987 else s).
  assert (1 <= s0 < 2 ^ 32) as Hs0.
  { unfold s0. destruct (Z.eqb_spec s 0); lia. }
  clearbody s0. clear s Hs.
  unfold Rand.ldiv, Rand.lmul, Rand.lsub, Rand.ladd. cbn [Z.eqb].
  rewrite Z.quot_div_nonneg by lia.
  pose proof (Z.div_mod s0 127773 ltac:(lia)) as Hdm.
  pose proof (Z.mod_pos_bound s0 127773 ltac:(lia)) as Hr.
  assert (0 <= s0 / 127773 <= 33614) as Hk.
  { split; [apply Z.div_pos; lia|].
    apply Z.lt_succ_r, Z.div_lt_upper_bound; lia. }
  set (k := s0 / 127773) in *. set (r := s0 mod 127773) in *.
  rewrite (Hfits k) by lia. cbn [mbind option_bind].
  rewrite (Hfits (k * 127773)) by lia. cbn [mbind option_bind].
  replace (s0 - k * 127773) with r by lia.
  rewrite (Hfits r) by lia. cbn [mbind option_bind].
  rewrite (Hfits (16807 * r)) by lia. cbn [mbind option_bind].
  rewrite (Hfits (2836 * k)) by lia. cbn [mbind option_bind].
  rewrite (Hfits (16807 * r - 2836 * k)) by lia. cbn [mbind option_bind].
  set (t := 16807 * r - 2836 * k).
  assert (- 2147483647 < t < 2147483647) as Ht by (unfold t; lia).
  assert (forall x, 0 <= x < 2147483647 ->
            Z.land x Rand.RAND_MAX = x /\ u32 x = x) as Hfit.
  { intros x Hx. split.
    - change Rand.RAND_MAX with (Z.ones 31). rewrite Z.land_ones by lia.
      apply Z.mod_small. lia.
    - apply Z.mod_small. lia. }
  destruct (Z.ltb_spec t 0) as [Hneg|Hpos].
  - rewrite (Hfits (t + 2147483647)) by lia. cbn [mbind option_bind].
    destruct (Hfit (t + 2147483647)) as [-> ->]; [lia|].
    eexists _, _. split; [reflexivity|]. lia.
  - cbn [mbind option_bind].
    destruct (Hfit t) as [-> ->]; [lia|].
    eexists _, _. split; [reflexivity|]. lia.
Qed.

(** * Properties of the mailboxes *)

Section MboxProofs.
Import Mbox.

(** [sys_mbox_new] never looks at [size]. *)
Lemma sys_mbox_new_size_unused `{KernelMailbox}
    (mb : option sys_mbox_t) (size1 size2 : Z) (st : sys_stats) :
  sys_mbox_new mb size1 st = sys_mbox_new mb size2 st.
Proof. reflexivity. Qed.

(** Posting to a bounded mailbox that holds [length q] messages: the posts
    are accepted while there is room, and refused from then on. *)
Lemma trypost_all_bounded (cap : nat) (msgs : list ptr) :
  forall (q : list ptr) (v : Z),
    (length q <= cap)%nat ->
    fst (@trypost_all (bounded_mailbox cap)
           (@SysMbox (bounded_mailbox cap) q v) msgs) =
      replicate (Nat.min (length msgs) (cap - length q)) ERR_OK ++
      replicate (length msgs - (cap - length q)) ERR_MEM.
Proof.
  induction msgs as [|msg msgs IH]; intros q v Hq; [reflexivity|].
  cbn [trypost_all]. unfold sys_mbox_trypost.
  cbn [mailbox mailbox_ptr_trypost bounded_mailbox valid].
  destruct (Nat.ltb_spec (length q) cap) as [Hroom|Hfull].
  - cbn [Z.eqb].
    specialize (IH (q ++ [msg]) v).
    rewrite length_app in IH. cbn [length] in IH.
    destruct (trypost_all _ msgs) as [es mbox] eqn:Hrest.
    cbn [fst] in *. rewrite IH by lia. cbn [length].
    replace (cap - length q)%nat with (S (cap - (length q + 1)))%nat by lia.
    rewrite <- Nat.succ_min_distr. cbn [replicate app].
    do 2 f_equal.
  - cbn [Z.eqb].
    specialize (IH q v Hq).
    destruct (trypost_all _ msgs) as [es mbox] eqn:Hrest.
    cbn [fst] in *. rewrite IH.
    replace (cap - length q)%nat with 0%nat by lia.
    rewrite !Nat.min_0_r, !Nat.sub_0_r. reflexivity.
Qed.

(** C5: the capacity of a mailbox made by [sys_mbox_new] is the kernel's,
    whatever [size] is asked for: on a kernel whose mailboxes hold
    [length msgs] pointers, the mailbox accepts the non-blocking posts of
    [msgs] and answers [ERR_MEM] to the next one, for every [size], also
    [size = length msgs + 1]; and two calls that differ only in [size] have
    the same outcome. *)
Theorem sys_mbox_new_capacity_ignores_size
    (size : Z) (q0 : list ptr) (v0 : Z) (st : sys_stats)
    (msgs : list ptr) (extra : ptr) :
  let K := bounded_mailbox (length msgs) in
  (forall size', @sys_mbox_new K (Some (@SysMbox K q0 v0)) size' st =
                 @sys_mbox_new K (Some (@SysMbox K q0 v0)) size st) /\
  exists m : @sys_mbox_t K,
    fst (fst (@sys_mbox_new K (Some (@SysMbox K q0 v0)) size st)) = ERR_OK /\
    snd (fst (@sys_mbox_new K (Some (@SysMbox K q0 v0)) size st)) = Some m /\
    fst (@trypost_all K m (msgs ++ [extra])) =
      replicate (length msgs) ERR_OK ++ [ERR_MEM].
Proof.
  intros K. split; [reflexivity|].
  exists (@SysMbox K [] TRUE). split; [reflexivity|]. split; [reflexivity|].
  subst K.
  rewrite (trypost_all_bounded (length msgs) (msgs ++ [extra]) [] TRUE)
    by (cbn; lia).
  rewrite length_app. cbn [length].
  rewrite Nat.sub_0_r.
  replace (Nat.min (length msgs + 1) (length msgs)) with (length msgs) by lia.
  replace (length msgs + 1 - length msgs)%nat with 1%nat by lia.
  reflexivity.
Qed.

(** A mailbox asked to hold three messages, on a kernel whose mailboxes
    hold two: the third post is refused. *)
Example sys_mbox_new_three_on_two :
  let K := bounded_mailbox 2 in
  match @sys_mbox_new K (Some (@SysMbox K [] FALSE)) 3 (SysStats 0) with
  | (e, Some m, _) => (e, fst (@trypost_all K m [10; 20; 30]))
  | (e, None, _) => (e, [])
  end = (ERR_OK, [ERR_OK; ERR_OK; ERR_MEM]).
Proof. reflexivity. Qed.

(** C10: when the kernel's initialisation fails, [sys_mbox_new] returns
    [ERR_MEM] after it has set the validity flag and counted the mailbox:
    [sys_mbox_valid] answers [TRUE] on the mailbox it leaves, the counter of
    live mailboxes is one higher, and a mailbox that was not valid before
    has changed. *)
Theorem sys_mbox_new_failure_leaves_valid `{KernelMailbox}
    (m : sys_mbox_t) (size : Z) (st : sys_stats) :
  fst (mailbox_ptr_init (mailbox m)) <> 0 ->
  exists m' : sys_mbox_t,
    sys_mbox_new (Some m) size st =
      (ERR_MEM, Some m', {| mbox_used := mbox_used st + 1 |}) /\
    sys_mbox_valid (Some m') = TRUE /\
    (valid m <> TRUE -> m' <> m).
Proof.
  intros Hfail. unfold sys_mbox_new. cbn [mailbox valid].
  destruct (mailbox_ptr_init (mailbox m)) as [err box].
  cbn [fst] in Hfail.
  destruct (Z.eqb_spec err 0) as [|_]; [contradiction|].
  eexists. split; [reflexivity|]. split; [reflexivity|].
  intros Hinvalid Heq. apply Hinvalid. rewrite <- Heq. reflexivity.
Qed.

End MboxProofs.

Lemma sys_mbox_new_failure_leaves_valid_witness :
  let K := Mbox.failing_init_mailbox 4 in
  exists m' : @Mbox.sys_mbox_t K,
    @Mbox.sys_mbox_new K (Some (@Mbox.SysMbox K [] FALSE)) 8 (Mbox.SysStats 0) =
      (ERR_MEM, Some m', Mbox.SysStats 1) /\
    @Mbox.sys_mbox_valid K (Some m') = TRUE /\
    (FALSE <> TRUE -> m' <> @Mbox.SysMbox K [] FALSE).
Proof.
  intros K.
  apply (@sys_mbox_new_failure_leaves_valid K (@Mbox.SysMbox K [] FALSE) 8
           (Mbox.SysStats 0)).
  cbn. lia.
Defined.

(** * Properties of the socket shim *)

Section ShimProofs.
Import Shim.

(** What [poll] returns: 0 when the stack returned 0, and -1 for every
    other result, a count of ready descriptors included. *)
Lemma poll_result `{LwipSockets}
    (fds : list pollfd) (nfds timeout : Z) (ps : process) :
  fst (fst (poll fds nfds timeout ps)) =
    if fst (fst (lwip_poll fds nfds timeout (lwip ps))) =? 0 then 0 else -1.
Proof.
  unfold poll.
  destruct (lwip_poll fds nfds timeout (lwip ps)) as [[ret fds'] st].
  cbn [fst]. destruct (ret =? 0); reflexivity.
Qed.

(** [select], next to it, hands a count through. *)
Lemma select_result `{LwipSockets}
    (maxfdp1 : Z) (r w e : option fd_set) (timeout : option timeval)
    (ps : process) :
  fst (fst (select maxfdp1 r w e timeout ps)) =
    let ret := fst (fst (lwip_select maxfdp1 r w e timeout (lwip ps))) in
    if ret <? 0 then -1 else ret.
Proof.
  unfold select.
  destruct (lwip_select maxfdp1 r w e timeout (lwip ps)) as [[ret sets] st].
  cbn [fst]. destruct (ret <? 0); reflexivity.
Qed.

(** C1: when the stack's [lwip_poll] reports one ready descriptor, [poll]
    returns -1 and copies the stack's error code, where the claim has it
    return the count 1; [select] on the same stack returns the count. *)
Theorem poll_loses_ready_count :
  let K := scripted_stack 1 0 in
  let ps := @Process K tt 5 0 in
  @lwip_poll K [3] 1 0 tt = (1, [3], tt) /\
  @poll K [3] 1 0 ps = (-1, [3], @Process K tt 0 0) /\
  @select K 4 (Some [3]) None None None ps =
    (1, (Some [3], None, None), @Process K tt 5 1%nat).
Proof. repeat split. Qed.

End ShimProofs.

(** * Properties of the network driver *)

Section DriverProofs.
Import UhyveNet UhyveTrace.
Context `{Platform}.

(** Induction along a chain of buffers. *)
Lemma pbuf_chain_ind (P : pbuf -> Prop) :
  (forall pl l tl, P (Pbuf None pl l tl)) ->
  (forall q pl l tl, P q -> P (Pbuf (Some q) pl l tl)) ->
  forall p, P p.
Proof.
  intros Hlast Hcons. fix IH 1.
  intros [[q|] pl l tl]; [apply Hcons, IH|apply Hlast].
Qed.

Lemma log_log (evs1 evs2 : list event) (w : world) :
  log evs2 (log evs1 w) = log (evs1 ++ evs2) w.
Proof. unfold log. cbn. by rewrite app_assoc. Qed.

Lemma count_app (f : event -> bool) (evs1 evs2 : list event) :
  count f (evs1 ++ evs2) = (count f evs1 + count f evs2)%nat.
Proof. unfold count. by rewrite List.filter_app, length_app. Qed.

(** Run the monadic plumbing of a driver function. *)
Ltac run_drv :=
  cbv [mbind drv_bind mret drv_ret kprintf emit LINK_STATS_INC eoi gets
       call_stack uhyve_net_write_sync];
  cbn [fst snd trace stack rx_buf host_rx uhyve_net_init_ok].

(** ** Output *)

Lemma output_loop_trace (q : pbuf) :
  forall w, output_loop q w = (tt, log (map write_of (chain q)) w).
Proof.
  induction q as [pl l tl|q pl l tl IH] using pbuf_chain_ind; intros w.
  - reflexivity.
  - cbn [output_loop chain map].
    change (output_loop q (log [NetWrite pl l] w) =
            (tt, log (write_of (Pbuf (Some q) pl l tl) :: map write_of (chain q)) w)).
    rewrite IH, log_log. reflexivity.
Qed.




(** ** The copy out of the receive buffer *)

Lemma chain_bytes_last (pl : list byte) (l tl : Z) :
  chain_bytes (Pbuf None pl l tl) = take (Z.to_nat l) pl.
Proof. unfold chain_bytes. cbn. by rewrite app_nil_r. Qed.

Lemma chain_bytes_cons (q : pbuf) (pl : list byte) (l tl : Z) :
  chain_bytes (Pbuf (Some q) pl l tl) = take (Z.to_nat l) pl ++ chain_bytes q.
Proof. reflexivity. Qed.

Lemma chain_len_nonneg (q : pbuf) :
  forall pos, no_wrap pos q -> 0 <= chain_len q.
Proof.
  induction q as [pl l tl|q pl l tl IH] using pbuf_chain_ind; intros pos.
  - cbn. unfold chain_len. cbn. lia.
  - cbn [no_wrap]. intros (Hl & _ & Hq). specialize (IH _ Hq).
    unfold chain_len in *. cbn [chain map foldr]. cbn [len]. lia.
Qed.

Lemma memcpy_take (dst src : list byte) (n : Z) :
  (Z.to_nat n <= length src)%nat ->
  take (Z.to_nat n) (memcpy dst src n) = take (Z.to_nat n) src.
Proof.
  intros Hn. unfold memcpy.
  rewrite take_app_le by (rewrite length_take; lia).
  by rewrite take_take, Nat.min_id.
Qed.

(** The copy loop is right as long as [pos] does not wrap: the chain then
    holds the bytes of the receive buffer from [pos] on. *)
Lemma rx_copy_no_wrap (rx : list byte) (q : pbuf) :
  forall pos,
    0 <= pos ->
    no_wrap pos q ->
    pos + chain_len q <= Z.of_nat (length rx) ->
    chain_bytes (rx_copy rx pos q) =
      take (Z.to_nat (chain_len q)) (drop (Z.to_nat pos) rx).
Proof.
  induction q as [pl l tl|q pl l tl IH] using pbuf_chain_ind;
    intros pos Hpos Hfit Hrx.
  - cbn [rx_copy]. rewrite chain_bytes_last.
    destruct Hfit as [Hl _].
    unfold chain_len in *. cbn in Hrx |- *. rewrite Z.add_0_r in *.
    apply memcpy_take. rewrite length_drop. lia.
  - cbn [rx_copy]. rewrite chain_bytes_cons.
    destruct Hfit as (Hl & Hsmall & Hq).
    pose proof (chain_len_nonneg q _ Hq) as Hrest.
    assert (chain_len (Pbuf (Some q) pl l tl) = l + chain_len q) as Hsum
      by reflexivity.
    rewrite Hsum in *.
    assert (u8 (pos + l) = pos + l) as ->
      by (apply Z.mod_small; change (2 ^ 8) with 256; lia).
    rewrite IH; [|lia|exact Hq|lia].
    rewrite memcpy_take by (rewrite length_drop; lia).
    rewrite (Z2Nat.inj_add pos l), (Z2Nat.inj_add l (chain_len q)) by lia.
    rewrite <- drop_drop. apply take_take_drop.
Qed.

(** ** Polling *)

Lemma handled_app (n1 n2 : nat) (evs1 evs2 : list event) :
  handled n1 evs1 -> handled n2 evs2 -> handled (n1 + n2) (evs1 ++ evs2).
Proof.
  unfold handled. rewrite !count_app. lia.
Qed.

(** One pass through the body of the loop handles one frame. *)
Lemma poll_body_handles (len : Z) (w : world) :
  exists (evs : list event) (st : stack_t),
    poll_body len w =
      (len + ETH_PAD_SIZE,
       {| uhyve_net_init_ok := uhyve_net_init_ok w; rx_buf := rx_buf w;
          host_rx := host_rx w; stack := st; trace := trace w ++ evs |}) /\
    handled 1 evs /\ count is_read evs = 0%nat.
Proof.
  unfold poll_body. run_drv.
  destruct (pbuf_alloc (u16 (len + ETH_PAD_SIZE)) (stack w)) as [[p|] st1].
  - run_drv.
    destruct (tcpip_callback_with_block _ st1) as [e st2].
    destruct (decide (e = ERR_OK)) as [He|He]; run_drv.
    + eexists _, _. rewrite <- !app_assoc.
      split; [reflexivity|]. by vm_compute.
    + eexists _, _. rewrite <- !app_assoc.
      split; [reflexivity|]. by vm_compute.
  - run_drv. eexists _, _. rewrite <- !app_assoc.
    split; [reflexivity|]. by vm_compute.
Qed.

(** With more fuel than pending frames the loop is left, after one read
    per frame and the read that finds nothing. *)
Lemma poll_loop_drains (fuel : nat) :
  forall (len : Z) (w : world),
    (length (host_rx w) < fuel)%nat ->
    exists (evs : list event) (rx : list byte) (st : stack_t),
      poll_loop fuel len w =
        (true,
         {| uhyve_net_init_ok := uhyve_net_init_ok w; rx_buf := rx;
            host_rx := []; stack := st;
            trace := trace w ++ NetRead len :: evs |}) /\
      count is_read evs = length (host_rx w) /\
      handled (length (host_rx w)) evs.
Proof.
  induction fuel as [|fuel IH]; intros len w Hfuel; [lia|].
  cbn [poll_loop]. cbv [mbind drv_bind uhyve_net_read_sync].
  destruct (host_rx w) as [|f pending] eqn:Hrx; cbn [host_netread].
  - cbn [Z.eqb]. eexists [], _, _.
    split; [reflexivity|]. by vm_compute.
  - cbn [Z.eqb].
    match goal with
    | |- context [poll_body ?n ?w1] =>
        destruct (poll_body_handles n w1) as (evs1 & st1 & -> & Hone & Hnoread)
    end.
    cbn [uhyve_net_init_ok rx_buf host_rx trace].
    match goal with
    | |- context [poll_loop fuel ?n ?w2] =>
        destruct (IH n w2) as (evs2 & rx2 & st2 & -> & Hreads & Hrest)
    end.
    { cbn in Hfuel |- *. lia. }
    cbn [uhyve_net_init_ok rx_buf host_rx trace] in *.
    eexists (evs1 ++ NetRead _ :: evs2), _, _.
    split; [by rewrite <- !app_assoc|].
    split.
    + rewrite count_app, Hnoread. cbn [length]. exact (f_equal S Hreads).
    + apply (handled_app 1 (length pending)); [assumption|].
      apply (handled_app 0 (length pending) [NetRead _]);
        [by vm_compute|assumption].
Qed.

(** ** The trace of a poll, frame by frame *)

Lemma last_len_cons (len : Z) (o : rx_outcome) (outs : list rx_outcome) :
  last_len len (o :: outs) = last_len (stored o) outs.
Proof.
  unfold last_len. cbn [map].
  destruct (map stored outs) as [|l ls] eqn:Hmap; [reflexivity|].
  rewrite last_cons. by destruct (last (l :: ls)) eqn:Hlast.
Qed.

(** With more fuel than pending frames, the loop adds to the trace the
    events of each frame, in order, and the read that finds nothing. *)
Lemma poll_loop_trace (fuel : nat) :
  forall (len : Z) (w : world),
    (length (host_rx w) < fuel)%nat ->
    let outs := rx_outcomes len (rx_buf w) (stack w) (host_rx w) in
    exists (rx : list byte) (st : stack_t),
      poll_loop fuel len w =
        (true,
         {| uhyve_net_init_ok := uhyve_net_init_ok w; rx_buf := rx;
            host_rx := []; stack := st;
            trace := trace w ++ flat_map frame_events outs ++
                     [NetRead (last_len len outs)] |}).
Proof.
  induction fuel as [|fuel IH]; intros len w Hfuel; [lia|].
  cbn [poll_loop]. cbv [mbind drv_bind uhyve_net_read_sync].
  destruct (host_rx w) as [|f pending] eqn:Hrx;
    cbn [host_netread rx_outcomes].
  - cbn [Z.eqb]. eexists _, _. reflexivity.
  - cbn [Z.eqb]. unfold poll_body. run_drv.
    destruct (pbuf_alloc _ (stack w)) as [[p|] st1].
    + run_drv.
      destruct (tcpip_callback_with_block _ st1) as [e st2].
      destruct (decide (e = ERR_OK)) as [He|He]; run_drv;
        match goal with
        | |- context [poll_loop fuel ?n ?w2] =>
            destruct (IH n w2) as (rx & st & ->); [cbn in Hfuel |- *; lia|]
        end;
        cbn [uhyve_net_init_ok rx_buf host_rx stack trace];
        eexists _, _; rewrite last_len_cons; cbn [flat_map stored];
        unfold frame_events at 1; cbn [asked stored fate];
        rewrite <- !app_assoc; reflexivity.
    + run_drv.
      match goal with
      | |- context [poll_loop fuel ?n ?w2] =>
          destruct (IH n w2) as (rx & st & ->); [cbn in Hfuel |- *; lia|]
      end.
      cbn [uhyve_net_init_ok rx_buf host_rx stack trace].
      eexists _, _. rewrite last_len_cons. cbn [flat_map stored].
      unfold frame_events at 1. cbn [asked stored fate].
      rewrite <- !app_assoc. reflexivity.
Qed.

Lemma rx_outcomes_length (pending : list (list byte)) :
  forall (len : Z) (rx : list byte) (st : stack_t),
    length (rx_outcomes len rx st pending) = length pending.
Proof.
  induction pending as [|f pending IH]; intros len rx st; [reflexivity|].
  cbn [rx_outcomes].
  destruct (pbuf_alloc _ st) as [[p|] st1].
  - destruct (tcpip_callback_with_block _ st1) as [e st2].
    destruct (decide (e = ERR_OK)); cbn [length]; by rewrite IH.
  - cbn [length]. by rewrite IH.
Qed.

Lemma fates_cons (o : rx_outcome) (outs : list rx_outcome) :
  offered (o :: outs) =
    match fate o with
    | NoBuffer => offered outs
    | Accepted p | Refused p => p :: offered outs
    end /\
  accepted (o :: outs) =
    match fate o with
    | Accepted p => p :: accepted outs
    | _ => accepted outs
    end /\
  refused (o :: outs) =
    match fate o with
    | Refused p => p :: refused outs
    | _ => refused outs
    end.
Proof. by destruct o as [a s [|p|p]]. Qed.

Ltac fates :=
  repeat match goal with
         | |- context [offered (?o :: ?outs)] =>
             rewrite (proj1 (fates_cons o outs))
         | |- context [accepted (?o :: ?outs)] =>
             rewrite (proj1 (proj2 (fates_cons o outs)))
         | |- context [refused (?o :: ?outs)] =>
             rewrite (proj2 (proj2 (fates_cons o outs)))
         end;
  cbn [fate].

(** The frames that find a buffer are those for which the pool answers
    with one: when it always does, every frame is offered to the worker. *)
Lemma rx_outcomes_all_offered (pending : list (list byte)) :
  (forall n st, fst (pbuf_alloc n st) <> None) ->
  forall (len : Z) (rx : list byte) (st : stack_t),
    length (offered (rx_outcomes len rx st pending)) = length pending.
Proof.
  intros Hpool. induction pending as [|f pending IH]; intros len rx st;
    [reflexivity|].
  cbn [rx_outcomes].
  destruct (pbuf_alloc _ st) as [[p|] st1] eqn:Halloc.
  - destruct (tcpip_callback_with_block _ st1) as [e st2].
    destruct (decide (e = ERR_OK)); fates; cbn [length]; f_equal; apply IH.
  - exfalso. eapply Hpool. by rewrite Halloc.
Qed.

(** When the pool never has a buffer, no frame is offered. *)
Lemma rx_outcomes_none_offered (pending : list (list byte)) :
  (forall n st, fst (pbuf_alloc n st) = None) ->
  forall (len : Z) (rx : list byte) (st : stack_t),
    offered (rx_outcomes len rx st pending) = [].
Proof.
  intros Hpool. induction pending as [|f pending IH]; intros len rx st;
    [reflexivity|].
  cbn [rx_outcomes]. pose proof (Hpool (u16 (Z.of_nat
    (length (take (Z.to_nat len) f)) + ETH_PAD_SIZE)) st) as Hnone.
  destruct (pbuf_alloc _ st) as [[p|] st1]; [discriminate Hnone|].
  fates. apply IH.
Qed.

(** A worker that takes every buffer refuses none, and one that takes
    none refuses all that are offered. *)
Lemma rx_outcomes_all_accepted (pending : list (list byte)) :
  (forall p st, fst (tcpip_callback_with_block p st) = ERR_OK) ->
  forall (len : Z) (rx : list byte) (st : stack_t),
    refused (rx_outcomes len rx st pending) = [] /\
    accepted (rx_outcomes len rx st pending) =
      offered (rx_outcomes len rx st pending).
Proof.
  intros Hworker. induction pending as [|f pending IH]; intros len rx st;
    [by split|].
  cbn [rx_outcomes].
  destruct (pbuf_alloc _ st) as [[p|] st1].
  - match goal with
    | |- context [tcpip_callback_with_block ?q st1] =>
        pose proof (Hworker q st1) as Hok;
        destruct (tcpip_callback_with_block q st1) as [e st2]
    end.
    cbn [fst] in Hok. destruct (decide (e = ERR_OK)); [|contradiction].
    fates.
    match goal with
    | |- context [rx_outcomes ?n ?r ?s pending] =>
        destruct (IH n r s) as [Hr Ha]
    end.
    by rewrite Hr, Ha.
  - fates. apply IH.
Qed.

Lemma rx_outcomes_all_refused (pending : list (list byte)) :
  (forall p st, fst (tcpip_callback_with_block p st) <> ERR_OK) ->
  forall (len : Z) (rx : list byte) (st : stack_t),
    accepted (rx_outcomes len rx st pending) = [] /\
    refused (rx_outcomes len rx st pending) =
      offered (rx_outcomes len rx st pending).
Proof.
  intros Hworker. induction pending as [|f pending IH]; intros len rx st;
    [by split|].
  cbn [rx_outcomes].
  destruct (pbuf_alloc _ st) as [[p|] st1].
  - match goal with
    | |- context [tcpip_callback_with_block ?q st1] =>
        pose proof (Hworker q st1) as Hno;
        destruct (tcpip_callback_with_block q st1) as [e st2]
    end.
    cbn [fst] in Hno. destruct (decide (e = ERR_OK)); [contradiction|].
    fates.
    match goal with
    | |- context [rx_outcomes ?n ?r ?s pending] =>
        destruct (IH n r s) as [Ha Hr]
    end.
    by rewrite Hr, Ha.
  - fates. apply IH.
Qed.

(** What the events of the frames contain. *)
Lemma frames_tally (outs : list rx_outcome) :
  let evs := flat_map frame_events outs in
  handoffs evs = offered outs /\
  frees evs = refused outs /\
  count is_callback evs = length (offered outs) /\
  count is_free evs = length (refused outs) /\
  count (is_stat link_recv) evs = length (accepted outs) /\
  count (is_stat link_memerr) evs = length (starved outs) /\
  count (is_stat link_drop) evs =
    (length (starved outs) + length (refused outs))%nat /\
  (length (offered outs) + length (starved outs))%nat = length outs /\
  (length (accepted outs) + length (refused outs))%nat =
    length (offered outs) /\
  count is_read evs = length outs /\
  count is_eoi evs = 0%nat /\
  count is_alloc evs = length outs.
Proof.
  induction outs as [|[a s f] outs IH]; [by repeat split|].
  cbn zeta in *. cbn [flat_map].
  set (rest := flat_map frame_events outs) in *.
  destruct IH
    as (H1 & H2 & H3 & H4 & H5 & H6 & H7 & H8 & H9 & H10 & H11 & H12).
  unfold handoffs, frees in *.
  rewrite !omap_app, !count_app, H1, H2, H3, H4, H5, H6, H7, H10, H11, H12.
  fates. unfold starved in *. cbn [List.filter fate].
  destruct f as [|p|p]; cbn; repeat split; try reflexivity; lia.
Qed.

(** C4, as the code has it: an invocation made before the driver is
    initialised returns at once; it reads nothing and acknowledges nothing.
    An invocation made once the driver is initialised drains every pending
    frame and acknowledges the interrupt exactly once, after the last read,
    however many frames there were.  Each of the n frames is read and the
    pool is asked for it; the frame is handed to the worker thread exactly
    when the pool answers with a buffer, and is counted in [link.memerr] and
    [link.drop] when it does not.  So there are n hand-offs when no
    allocation fails, three for three pending frames, and fewer by the
    number of failed allocations otherwise. *)
Theorem uhyve_netif_poll_acknowledges_once (w : world) :
  (uhyve_net_init_ok w = 0 -> uhyve_netif_poll w = (tt, w)) /\
  (uhyve_net_init_ok w <> 0 ->
   let outs := rx_outcomes RX_BUF_LEN (rx_buf w) (stack w) (host_rx w) in
   exists evs : list event,
     trace (snd (uhyve_netif_poll w)) = trace w ++ evs /\
     host_rx (snd (uhyve_netif_poll w)) = [] /\
     count is_eoi evs = 1%nat /\
     last evs = Some Eoi /\
     count is_read evs = S (length (host_rx w)) /\
     (count is_callback evs + count (is_stat link_memerr) evs)%nat =
       length (host_rx w) /\
     (count (is_stat link_recv) evs + count (is_stat link_drop) evs)%nat =
       length (host_rx w) /\
     (count (is_stat link_memerr) evs <= count (is_stat link_drop) evs)%nat /\
     evs = flat_map frame_events outs ++
           [NetRead (last_len RX_BUF_LEN outs); Eoi] /\
     length outs = length (host_rx w) /\
     handoffs evs = offered outs /\
     count is_callback evs = length (offered outs) /\
     count (is_stat link_memerr) evs = length (starved outs) /\
     ((forall n st, fst (pbuf_alloc n st) <> None) ->
      count is_callback evs = length (host_rx w) /\
      count (is_stat link_memerr) evs = 0%nat) /\
     ((forall n st, fst (pbuf_alloc n st) = None) ->
      count is_callback evs = 0%nat /\
      count (is_stat link_memerr) evs = length (host_rx w) /\
      count (is_stat link_drop) evs = length (host_rx w))).
Proof.
  split.
  { intros Hinit. unfold uhyve_netif_poll, uhyve_netif_poll_fuel.
    cbv [mbind drv_bind gets mret drv_ret]. by rewrite Hinit. }
  intros Hinit outs. unfold uhyve_netif_poll, uhyve_netif_poll_fuel.
  cbv [mbind drv_bind gets]. cbn [snd].
  destruct (Z.eqb_spec (uhyve_net_init_ok w) 0) as [|_]; [contradiction|].
  destruct (poll_loop_trace (S (length (host_rx w))) RX_BUF_LEN w)
    as (rx & st & ->); [lia|].
  fold outs. run_drv.
  exists (flat_map frame_events outs ++ [NetRead (last_len RX_BUF_LEN outs); Eoi]).
  destruct (frames_tally outs)
    as (Hh & Hf & Hcb & Hfree & Hrecv & Hmem & Hdrop & Hsplit & Hpart &
        Hread & Heoi & _).
  pose proof (rx_outcomes_length (host_rx w) RX_BUF_LEN (rx_buf w) (stack w))
    as Hlen.
  fold outs in Hlen.
  assert (last (flat_map frame_events outs ++
                [NetRead (last_len RX_BUF_LEN outs); Eoi]) = Some Eoi) as Hlast.
  { change [NetRead (last_len RX_BUF_LEN outs); Eoi]
      with ([NetRead (last_len RX_BUF_LEN outs)] ++ [Eoi]).
    by rewrite app_assoc, last_snoc. }
  unfold handoffs in *. rewrite !count_app, omap_app, Hlast.
  rewrite Hh, Hcb, Hrecv, Hmem, Hdrop, Hread, Heoi.
  cbn [count List.filter is_eoi is_read is_callback is_stat length omap
       list_omap].
  split; [by rewrite <- !app_assoc|].
  repeat split; try reflexivity; try lia.
  - by rewrite app_nil_r.
  - pose proof (rx_outcomes_all_offered (host_rx w) H0 RX_BUF_LEN (rx_buf w)
                  (stack w)) as Hall.
    fold outs in Hall. lia.
  - pose proof (rx_outcomes_all_offered (host_rx w) H0 RX_BUF_LEN (rx_buf w)
                  (stack w)) as Hall.
    fold outs in Hall. lia.
  - pose proof (rx_outcomes_none_offered (host_rx w) H0 RX_BUF_LEN (rx_buf w)
                  (stack w)) as Hnone.
    fold outs in Hnone. rewrite Hnone. reflexivity.
  - pose proof (rx_outcomes_none_offered (host_rx w) H0 RX_BUF_LEN (rx_buf w)
                  (stack w)) as Hnone.
    fold outs in Hnone. rewrite Hnone in Hsplit. cbn in Hsplit. lia.
  - pose proof (rx_outcomes_none_offered (host_rx w) H0 RX_BUF_LEN (rx_buf w)
                  (stack w)) as Hnone.
    fold outs in Hnone. rewrite Hnone in Hsplit, Hpart. cbn in Hsplit, Hpart.
    lia.
Qed.

(** C9: when the allocation for a received frame fails, the iteration
    logs the failure, counts it in [link.memerr] and in [link.drop] and hands
    nothing to the worker; the loop is not left: it goes on exactly as it
    would from the state in which the frame is gone from the channel, so
    that its next step is a new read, and with enough fuel it reads and
    handles every frame that was pending behind the lost one. *)
Theorem poll_loop_continues_after_alloc_failure
    (fuel : nat) (len : Z) (w : world)
    (f : list byte) (pending : list (list byte)) (st : stack_t) :
  host_rx w = f :: pending ->
  let d := take (Z.to_nat len) f in
  let len' := Z.of_nat (length d) + ETH_PAD_SIZE in
  pbuf_alloc (u16 len') (stack w) = (None, st) ->
  let w' :=
    {| uhyve_net_init_ok := uhyve_net_init_ok w;
       rx_buf := d ++ drop (length d) (rx_buf w);
       host_rx := pending;
       stack := st;
       trace := trace w ++
         [NetRead len; PbufAlloc (u16 len');
          Kprintf "uhyve_netif_poll: not enough memory!" [];
          LinkStatsInc link_memerr; LinkStatsInc link_drop] |} in
  poll_loop (S fuel) len w = poll_loop fuel len' w' /\
  ((length pending < fuel)%nat ->
   exists (evs : list event) (rx : list byte) (st' : stack_t),
     poll_loop (S fuel) len w =
       (true,
        {| uhyve_net_init_ok := uhyve_net_init_ok w; rx_buf := rx;
           host_rx := []; stack := st';
           trace := trace w' ++ NetRead len' :: evs |}) /\
     count is_read evs = length pending /\
     handled (length pending) evs).
Proof.
  intros Hrx d len' Halloc w'.
  assert (poll_loop (S fuel) len w = poll_loop fuel len' w') as Hstep.
  { cbn [poll_loop]. cbv [mbind drv_bind uhyve_net_read_sync].
    rewrite Hrx. cbn [host_netread Z.eqb].
    unfold poll_body. run_drv. fold d. fold len'. rewrite Halloc.
    run_drv. rewrite <- !app_assoc. reflexivity. }
  split; [exact Hstep|]. intros Hfuel. rewrite Hstep.
  exact (poll_loop_drains fuel len' w' Hfuel).
Qed.

End DriverProofs.

(** ** Decoding the hardware address *)

Section MacProofs.
Import UhyveNet.

(** [dehex] agrees with the digit table of the Standard Library. *)
Lemma dehex_digit (c : ascii) (v : N) :
  HexString.ascii_to_digit c = Some v ->
  dehex c = Z.of_N v /\ 0 <= Z.of_N v < 16.
Proof.
  destruct c as [b0 b1 b2 b3 b4 b5 b6 b7].
  destruct b0, b1, b2, b3, b4, b5, b6, b7; intros Hv; vm_compute in Hv;
    try discriminate Hv; injection Hv as <-; split; (reflexivity || lia).
Qed.

(** A character that is no digit decodes to 0. *)
Lemma dehex_other (c : ascii) :
  HexString.ascii_to_digit c = None -> dehex c = 0.
Proof.
  destruct c as [b0 b1 b2 b3 b4 b5 b6 b7].
  destruct b0, b1, b2, b3, b4, b5, b6, b7; intros Hv; vm_compute in Hv;
    try discriminate Hv; reflexivity.
Qed.

(** The two stores into [hwaddr[tmp8]] assemble the byte. *)
Lemma pack_nibbles (hi lo : Z) :
  0 <= hi < 16 -> 0 <= lo < 16 ->
  u8 (Z.lor (u8 (Z.shiftl hi 4)) lo) = 16 * hi + lo.
Proof.
  intros Hhi Hlo.
  rewrite <- (Z2Nat.id hi), <- (Z2Nat.id lo) by lia.
  assert (Z.to_nat hi < 16)%nat as Hn by lia.
  assert (Z.to_nat lo < 16)%nat as Hm by lia.
  generalize dependent (Z.to_nat lo). generalize dependent (Z.to_nat hi).
  clear. intros n Hn m Hm.
  do 16 (destruct n as [|n];
         [do 16 (destruct m as [|m]; [reflexivity|]); lia|]).
  lia.
Qed.

Lemma hex_pair_value_dehex (h l : ascii) (v : Z) :
  hex_pair_value (h, l) = Some v ->
  u8 (Z.lor (u8 (Z.shiftl (dehex h) 4)) (dehex l)) = v.
Proof.
  unfold hex_pair_value. cbn [fst snd].
  destruct (HexString.ascii_to_digit h) as [a|] eqn:Ha; [|discriminate].
  destruct (HexString.ascii_to_digit l) as [b|] eqn:Hb; [|discriminate].
  cbn. intros [= <-].
  destruct (dehex_digit h a Ha) as [-> Hra].
  destruct (dehex_digit l b Hb) as [-> Hrb].
  rewrite pack_nibbles by lia. lia.
Qed.

(** C8: for six pairs of hexadecimal digits, in either case, written with
    colons between the pairs, the loop of [uhyve_netif_init] leaves in
    [netif->hwaddr] the six bytes the pairs denote, whatever follows the
    text in [mac_str] (its terminator) and whatever the array held before. *)
Theorem uhyve_netif_init_decodes_mac
    (pairs : list (ascii * ascii)) (bytes : list Z)
    (rest : list ascii) (hwaddr : list Z) :
  length pairs = 6%nat ->
  length hwaddr = 6%nat ->
  Forall2 (fun hl v => hex_pair_value hl = Some v) pairs bytes ->
  uhyve_netif_init_hwaddr (mac_text pairs ++ rest) hwaddr = bytes.
Proof.
  intros Hpairs Hhw Hvals.
  do 6 (destruct pairs as [|[? ?] pairs]; [discriminate Hpairs|]).
  destruct pairs; [|discriminate Hpairs].
  do 6 (destruct hwaddr as [|? hwaddr]; [discriminate Hhw|]).
  destruct hwaddr; [|discriminate Hhw].
  repeat match goal with
         | Hf : Forall2 _ (_ :: _) _ |- _ =>
             apply Forall2_cons_inv_l in Hf as (? & ? & ?%hex_pair_value_dehex & Hf & ->)
         | Hf : Forall2 _ [] _ |- _ => apply Forall2_nil_inv_l in Hf as ->
         end.
  subst. reflexivity.
Qed.

End MacProofs.

Lemma uhyve_netif_init_decodes_mac_witness :
  UhyveNet.uhyve_netif_init_hwaddr
    (list_ascii_of_string "aa:bb:cc:dd:ee:ff" ++ [zero]) [0; 0; 0; 0; 0; 0] =
  [0xAA; 0xBB; 0xCC; 0xDD; 0xEE; 0xFF].
Proof.
  apply (uhyve_netif_init_decodes_mac
           [("a", "a"); ("b", "b"); ("c", "c"); ("d", "d"); ("e", "e");
            ("f", "f")]%char
           [0xAA; 0xBB; 0xCC; 0xDD; 0xEE; 0xFF] [zero] [0; 0; 0; 0; 0; 0]).
  - reflexivity.
  - reflexivity.
  - repeat constructor.
Defined.

(** Upper and lower case mix freely. *)
Example uhyve_netif_init_mixed_case :
  UhyveNet.uhyve_netif_init_hwaddr
    (list_ascii_of_string "De:aD:00:c0:FF:ee") [1; 2; 3; 4; 5; 6] =
  [0xDE; 0xAD; 0x00; 0xC0; 0xFF; 0xEE].
Proof. reflexivity. Qed.

(** ** The driver on concrete frames *)


(** C2: a frame of 600 bytes received into pool segments of 592 bytes.  The
    buffer handed to the worker has the layout 592 + 8, and the copy loop
    takes its last 8 bytes from offset 592 mod 256 = 80 of the receive
    buffer, not from offset 592: the chain does not hold the frame. *)
Theorem rx_copy_wraps_at_256 :
  let P := UhyveNet.pool592 in
  let frame := replicate 592 Byte.x00 ++ replicate 8 Byte.x01 in
  let w := snd (UhyveNet.uhyve_netif_poll (@UhyveNet.running P tt [frame])) in
  exists p : UhyveNet.pbuf,
    UhyveNet.trace w !! 2%nat = Some (UhyveNet.TcpipCallback p) /\
    map UhyveNet.len (UhyveNet.chain p) = [592; 8] /\
    take 600 (UhyveNet.rx_buf w) = frame /\
    UhyveNet.chain_bytes p = replicate 600 Byte.x00 /\
    UhyveNet.chain_bytes p <> take 600 (UhyveNet.rx_buf w).
Proof.
  intros P frame w.
  destruct (UhyveNet.trace w !! 2%nat) as [[| | | |p| | |]|] eqn:Hev;
    try (vm_compute in Hev; discriminate Hev).
  exists p. split; [reflexivity|].
  vm_compute in Hev. injection Hev as <-.
  split; [reflexivity|]. split; [by vm_compute|]. split; [by vm_compute|].
  intros Heq. apply (f_equal (fun l => l !! 599%nat)) in Heq.
  vm_compute in Heq. discriminate Heq.
Qed.

(** C4, as stated, fails on an invocation made before the driver is
    initialised: the poll returns at once, with three frames pending, no
    read and no acknowledgment. *)
Lemma uhyve_netif_poll_uninitialised_no_eoi :
  let P := UhyveNet.pool592 in
  let w0 : @UhyveNet.world P :=
    {| UhyveNet.uhyve_net_init_ok := 0;
       UhyveNet.rx_buf := replicate 2048 Byte.x00;
       UhyveNet.host_rx := [[Byte.x01]; [Byte.x02]; [Byte.x03]];
       UhyveNet.stack := tt; UhyveNet.trace := [] |} in
  UhyveNet.count UhyveNet.is_eoi
    (UhyveNet.trace (snd (UhyveNet.uhyve_netif_poll w0))) <> 1%nat /\
  snd (UhyveNet.uhyve_netif_poll w0) = w0.
Proof. split; [by vm_compute|reflexivity]. Qed.

Lemma uhyve_netif_poll_acknowledges_once_witness :
  let P := UhyveNet.pool592 in
  let w0 : @UhyveNet.world P :=
    {| UhyveNet.uhyve_net_init_ok := 0;
       UhyveNet.rx_buf := replicate 2048 Byte.x00;
       UhyveNet.host_rx := [[Byte.x01]; [Byte.x02]; [Byte.x03]];
       UhyveNet.stack := tt; UhyveNet.trace := [] |} in
  let w := @UhyveNet.running P tt
             [replicate 100 Byte.x02; replicate 60 Byte.x01;
              replicate 40 Byte.x03] in
  let outs :=
    @UhyveTrace.rx_outcomes P (@UhyveNet.RX_BUF_LEN P) (UhyveNet.rx_buf w)
      (UhyveNet.stack w) (UhyveNet.host_rx w) in
  UhyveNet.uhyve_netif_poll w0 = (tt, w0) /\
  exists evs : list UhyveNet.event,
    UhyveNet.trace (snd (UhyveNet.uhyve_netif_poll w)) =
      UhyveNet.trace w ++ evs /\
    UhyveNet.host_rx (snd (UhyveNet.uhyve_netif_poll w)) = [] /\
    UhyveNet.count UhyveNet.is_eoi evs = 1%nat /\
    last evs = Some UhyveNet.Eoi /\
    UhyveNet.count UhyveNet.is_read evs = 4%nat /\
    (UhyveNet.count UhyveNet.is_callback evs +
     UhyveNet.count (UhyveNet.is_stat UhyveNet.link_memerr) evs)%nat = 3%nat /\
    (UhyveNet.count (UhyveNet.is_stat UhyveNet.link_recv) evs +
     UhyveNet.count (UhyveNet.is_stat UhyveNet.link_drop) evs)%nat = 3%nat /\
    (UhyveNet.count (UhyveNet.is_stat UhyveNet.link_memerr) evs <=
     UhyveNet.count (UhyveNet.is_stat UhyveNet.link_drop) evs)%nat /\
    evs = flat_map UhyveTrace.frame_events outs ++
          [UhyveNet.NetRead (UhyveTrace.last_len (@UhyveNet.RX_BUF_LEN P) outs);
           UhyveNet.Eoi] /\
    length outs = 3%nat /\
    UhyveTrace.handoffs evs = UhyveTrace.offered outs /\
    UhyveNet.count UhyveNet.is_callback evs =
      length (UhyveTrace.offered outs) /\
    UhyveNet.count (UhyveNet.is_stat UhyveNet.link_memerr) evs =
      length (UhyveTrace.starved outs) /\
    ((forall n st, fst (@UhyveNet.pbuf_alloc P n st) <> None) ->
     UhyveNet.count UhyveNet.is_callback evs = 3%nat /\
     UhyveNet.count (UhyveNet.is_stat UhyveNet.link_memerr) evs = 0%nat) /\
    ((forall n st, fst (@UhyveNet.pbuf_alloc P n st) = None) ->
     UhyveNet.count UhyveNet.is_callback evs = 0%nat /\
     UhyveNet.count (UhyveNet.is_stat UhyveNet.link_memerr) evs = 3%nat /\
     UhyveNet.count (UhyveNet.is_stat UhyveNet.link_drop) evs = 3%nat).
Proof.
  intros P w0 w outs. split.
  - apply (proj1 (@uhyve_netif_poll_acknowledges_once P w0)). reflexivity.
  - apply (proj2 (@uhyve_netif_poll_acknowledges_once P w)). cbn. lia.
Defined.

(** Three pending frames and a pool with buffers for all of them: one
    acknowledgment, four reads and three hand-offs, all of them accepted. *)
Example uhyve_netif_poll_three_handoffs :
  let P := UhyveNet.pool592 in
  let w := @UhyveNet.running P tt
             [replicate 100 Byte.x02; replicate 60 Byte.x01;
              replicate 40 Byte.x03] in
  let evs := UhyveNet.trace (snd (UhyveNet.uhyve_netif_poll w)) in
  (UhyveNet.count UhyveNet.is_eoi evs,
   UhyveNet.count UhyveNet.is_read evs,
   UhyveNet.count UhyveNet.is_callback evs,
   UhyveNet.count (UhyveNet.is_stat UhyveNet.link_recv) evs,
   UhyveNet.count (UhyveNet.is_stat UhyveNet.link_drop) evs) =
  (1, 4, 3, 3, 0)%nat.
Proof. by vm_compute. Qed.

Lemma poll_loop_continues_after_alloc_failure_witness :
  let P := UhyveNet.short_pool in
  let w := @UhyveNet.running P tt
             [replicate 100 Byte.x02; replicate 40 Byte.x03] in
  let w' : @UhyveNet.world P :=
    {| UhyveNet.uhyve_net_init_ok := 1;
       UhyveNet.rx_buf := replicate 100 Byte.x02 ++ replicate 1948 Byte.x00;
       UhyveNet.host_rx := [replicate 40 Byte.x03];
       UhyveNet.stack := tt;
       UhyveNet.trace :=
         [UhyveNet.NetRead 2048; UhyveNet.PbufAlloc 100;
          UhyveNet.Kprintf "uhyve_netif_poll: not enough memory!" [];
          UhyveNet.LinkStatsInc UhyveNet.link_memerr;
          UhyveNet.LinkStatsInc UhyveNet.link_drop] |} in
  UhyveNet.poll_loop 3 2048 w = UhyveNet.poll_loop 2 100 w' /\
  ((1 < 2)%nat ->
   exists (evs : list UhyveNet.event) (rx : list UhyveNet.byte) (st' : unit),
     UhyveNet.poll_loop 3 2048 w =
       (true,
        {| UhyveNet.uhyve_net_init_ok := 1; UhyveNet.rx_buf := rx;
           UhyveNet.host_rx := []; UhyveNet.stack := st';
           UhyveNet.trace :=
             UhyveNet.trace w' ++ UhyveNet.NetRead 100 :: evs |}) /\
     UhyveNet.count UhyveNet.is_read evs = 1%nat /\
     UhyveNet.handled 1 evs).
Proof.
  intros P w w'.
  apply (@poll_loop_continues_after_alloc_failure P 2 2048 w
           (replicate 100 Byte.x02) [replicate 40 Byte.x03] tt).
  - reflexivity.
  - reflexivity.
Defined.

(** Three frames end to end: the frame of 100 bytes finds no buffer and is
    dropped, the two others reach the worker; each read after the first
    asks for no more than the length the read before it returned. *)
Example uhyve_netif_poll_three_frames :
  let P := UhyveNet.short_pool in
  let w := @UhyveNet.running P tt
             [replicate 100 Byte.x02; replicate 60 Byte.x01;
              replicate 40 Byte.x03] in
  map (fun e => match e with
                | UhyveNet.TcpipCallback p =>
                    UhyveNet.TcpipCallback
                      (UhyveNet.Pbuf None [] (UhyveNet.len p) (UhyveNet.tot_len p))
                | e => e
                end)
      (UhyveNet.trace (snd (UhyveNet.uhyve_netif_poll w))) =
  [UhyveNet.NetRead 2048; UhyveNet.PbufAlloc 100;
   UhyveNet.Kprintf "uhyve_netif_poll: not enough memory!" [];
   UhyveNet.LinkStatsInc UhyveNet.link_memerr;
   UhyveNet.LinkStatsInc UhyveNet.link_drop;
   UhyveNet.NetRead 100; UhyveNet.PbufAlloc 60;
   UhyveNet.TcpipCallback (UhyveNet.Pbuf None [] 60 60);
   UhyveNet.LinkStatsInc UhyveNet.link_recv;
   UhyveNet.NetRead 60; UhyveNet.PbufAlloc 40;
   UhyveNet.TcpipCallback (UhyveNet.Pbuf None [] 40 40);
   UhyveNet.LinkStatsInc UhyveNet.link_recv;
   UhyveNet.NetRead 40; UhyveNet.Eoi].
Proof. by vm_compute. Qed.

(** * More on the pseudo-random generator *)

Section RandSeqProofs.
Import Rand RandSeq.
Variable long_bits : Z.
Hypothesis long_has_32_bits : 32 <= long_bits.

Lemma minimal_standard_pow (k : Z) (s : Z) :
  0 <= k ->
  minimal_standard ((16807 ^ k * s) mod 2147483647) =
  (16807 ^ (k + 1) * s) mod 2147483647.
Proof.
  intros Hk. unfold minimal_standard.
  rewrite Z.mul_mod_idemp_r by lia.
  f_equal. rewrite Z.pow_add_r by lia. lia.
Qed.

Lemma lwip_rand_n_from (hw : cpu) (s : Z) (n : nat) :
  has_rdrand hw = false ->
  1 <= s <= 2147483646 ->
  forall k : nat,
    lwip_rand_n long_bits hw n ((16807 ^ Z.of_nat k * s) mod 2147483647) =
    Some (map (fun i : nat => (16807 ^ Z.of_nat (S i) * s) mod 2147483647)
              (seq k n),
          (16807 ^ Z.of_nat (k + n) * s) mod 2147483647).
Proof.
  intros Hsoft Hs. induction n as [|n IH]; intros k.
  - cbn. by rewrite Nat.add_0_r.
  - cbn [lwip_rand_n]. unfold lwip_rand. rewrite Hsoft.
    assert (1 <= (16807 ^ Z.of_nat k * s) mod 2147483647 <= 2147483646) as Hk.
    { induction k as [|k IHk].
      - cbn [Z.of_nat]. rewrite Z.pow_0_r, Z.mul_1_l, Z.mod_small; lia.
      - replace (Z.of_nat (S k)) with (Z.of_nat k + 1) by lia.
        rewrite <- minimal_standard_pow by lia.
        by apply minimal_standard_range. }
    rewrite (schrage_step long_bits long_has_32_bits _ Hk).
    cbn [mbind option_bind].
    rewrite minimal_standard_pow by lia.
    replace (Z.of_nat k + 1) with (Z.of_nat (S k)) by lia.
    rewrite (IH (S k)). cbn [mbind option_bind seq map].
    replace (k + S n)%nat with (S k + n)%nat by lia. reflexivity.
Qed.

(** X1: on the software path, from a seed s in [1, 2^31 - 2], n calls of
    [lwip_rand] all return, the i-th returns (16807^i * s) mod (2^31 - 1),
    and the seed left behind is (16807^n * s) mod (2^31 - 1). *)
Theorem lwip_rand_n_closed_form (hw : cpu) (s : Z) (n : nat) :
  has_rdrand hw = false ->
  1 <= s <= 2147483646 ->
  lwip_rand_n long_bits hw n s =
  Some (map (fun i : nat => (16807 ^ Z.of_nat (S i) * s) mod (2 ^ 31 - 1))
            (seq 0 n),
        (16807 ^ Z.of_nat n * s) mod (2 ^ 31 - 1)).
Proof.
  intros Hsoft Hs.
  pose proof (lwip_rand_n_from hw s n Hsoft Hs 0%nat) as Hseq.
  cbn [Z.of_nat Nat.add] in Hseq.
  rewrite Z.pow_0_r, Z.mul_1_l, Z.mod_small in Hseq by lia.
  exact Hseq.
Qed.

(** X2: on seeds in [1, 2^31 - 2] the step of [__rand] is one-to-one: two
    different seeds never lead to the same stored seed and value. *)
Theorem rand_step_injective (s1 s2 : Z) :
  1 <= s1 <= 2147483646 ->
  1 <= s2 <= 2147483646 ->
  s1 <> s2 ->
  __rand long_bits s1 <> __rand long_bits s2.
Proof.
  intros H1 H2 Hne.
  rewrite !schrage_step by assumption.
  intros [= Heq]. apply Hne. unfold minimal_standard in Heq.
  pose proof (Z.div_mod (16807 * s1) 2147483647 ltac:(lia)) as Hd1.
  pose proof (Z.div_mod (16807 * s2) 2147483647 ltac:(lia)) as Hd2.
  set (j1 := 16807 * s1 / 2147483647) in *.
  set (j2 := 16807 * s2 / 2147483647) in *.
  (* 1407677000 * 16807 = 1 + 11017 * 2147483647 *)
  assert (s1 - s2 =
          2147483647 * (1407677000 * (j1 - j2) - 11017 * (s1 - s2))) by lia.
  lia.
Qed.

(** X3: a stored seed of 0 is indistinguishable from 0x12345987: from
    the first call on, the two seeds give the same values and the same
    stored seeds. *)
Theorem rand_zero_seed_aliases_constant (hw : cpu) (n : nat) :
  has_rdrand hw = false ->
  lwip_rand_n long_bits hw (S n) 0 = lwip_rand_n long_bits hw (S n) 0x12345987.
Proof.
  intros Hsoft. cbn [lwip_rand_n]. unfold lwip_rand. rewrite Hsoft.
  rewrite rand_zero_seed by assumption.
  rewrite schrage_step by (assumption || lia).
  reflexivity.
Qed.

(** X4: on the software path, for every value [rand_seed] can hold, the
    value [lwip_rand] returns is the seed it stores: it lies in
    [1, 2^31 - 2], so neither 0 nor RAND_MAX is ever returned, and each
    value returned tells the next one. *)
Theorem lwip_rand_software_output_is_state (hw : cpu) (s : Z) :
  has_rdrand hw = false ->
  stored_seed long_bits s ->
  exists r : Z,
    lwip_rand long_bits hw s = Some (r, r) /\
    1 <= r <= 2 ^ 31 - 2 /\
    lwip_rand long_bits hw r = Some (minimal_standard r, minimal_standard r).
Proof.
  intros Hsoft Hstored.
  destruct (rand_in_range long_bits long_has_32_bits s
              (stored_seed_range long_bits long_has_32_bits s Hstored))
    as (r & Hr & Hrange & _).
  exists r. unfold lwip_rand. rewrite Hsoft.
  split; [exact Hr|]. split; [lia|].
  apply schrage_step; [assumption|lia].
Qed.

End RandSeqProofs.

(** X5: when the processor has a hardware generator, [lwip_rand] returns
    its value, a 32-bit unsigned integer, reduced modulo RAND_MAX = 2^31 - 1:
    a value in [0, 2^31 - 2], the hardware value itself when that is below
    RAND_MAX.  [rand_seed] is left as it was, whatever the seed and the
    width of [long]. *)
Theorem lwip_rand_hardware_path (long_bits : Z) (hw : Rand.cpu) (s : Z) :
  Rand.has_rdrand hw = true ->
  exists r : Z,
    Rand.lwip_rand long_bits hw s = Some (r, s) /\
    0 <= r <= 2 ^ 31 - 2 /\
    (0 <= Rand.rdrand hw < 2 ^ 31 - 1 -> r = Rand.rdrand hw) /\
    r = (Rand.rdrand hw mod 2 ^ 32) mod (2 ^ 31 - 1).
Proof.
  intros Hhw. unfold Rand.lwip_rand. rewrite Hhw.
  eexists. split; [reflexivity|].
  cut (0 <= u32 (Rand.rdrand hw) mod Rand.RAND_MAX <= 2 ^ 31 - 2 /\
       (0 <= Rand.rdrand hw < 2 ^ 31 - 1 ->
        u32 (Rand.rdrand hw) mod Rand.RAND_MAX = Rand.rdrand hw)).
  { intros [Hrange Hsmall]. repeat split; try apply Hrange; done. }
  pose proof (Z.mod_pos_bound (u32 (Rand.rdrand hw)) Rand.RAND_MAX
                ltac:(reflexivity)) as Hb.
  change Rand.RAND_MAX with (2 ^ 31 - 1) in *.
  split; [lia|]. intros Hsmall.
  unfold u32. rewrite (Z.mod_small (Rand.rdrand hw) (2 ^ 32)) by lia.
  apply Z.mod_small. lia.
Qed.

Lemma lwip_rand_n_closed_form_witness :
  RandSeq.lwip_rand_n 64 (Rand.Cpu false 0) 3 1 =
  Some (map (fun i : nat => (16807 ^ Z.of_nat (S i) * 1) mod (2 ^ 31 - 1))
            (seq 0 3),
        (16807 ^ Z.of_nat 3 * 1) mod (2 ^ 31 - 1)).
Proof.
  apply (lwip_rand_n_closed_form 64 ltac:(lia) (Rand.Cpu false 0) 1 3).
  - reflexivity.
  - lia.
Defined.

Lemma rand_step_injective_witness : Rand.__rand 64 1 <> Rand.__rand 64 2.
Proof.
  apply (rand_step_injective 64 ltac:(lia) 1 2); lia.
Defined.

Lemma rand_zero_seed_aliases_constant_witness :
  RandSeq.lwip_rand_n 64 (Rand.Cpu false 0) 2 0 =
  RandSeq.lwip_rand_n 64 (Rand.Cpu false 0) 2 0x12345987.
Proof.
  apply (rand_zero_seed_aliases_constant 64 ltac:(lia) (Rand.Cpu false 0) 1).
  reflexivity.
Defined.

Lemma lwip_rand_software_output_is_state_witness :
  exists r : Z,
    Rand.lwip_rand 64 (Rand.Cpu false 0) (Rand.__rand_init 1000) = Some (r, r) /\
    1 <= r <= 2 ^ 31 - 2 /\
    Rand.lwip_rand 64 (Rand.Cpu false 0) r =
      Some (Rand.minimal_standard r, Rand.minimal_standard r).
Proof.
  apply (lwip_rand_software_output_is_state 64 ltac:(lia) (Rand.Cpu false 0)
           (Rand.__rand_init 1000)).
  - reflexivity.
  - apply Rand.stored_init.
Defined.

Lemma lwip_rand_hardware_path_witness :
  exists r : Z,
    Rand.lwip_rand 64 (Rand.Cpu true 0x80000005) 42 = Some (r, 42) /\
    0 <= r <= 2 ^ 31 - 2 /\
    (0 <= 0x80000005 < 2 ^ 31 - 1 -> r = 0x80000005) /\
    r = (0x80000005 mod 2 ^ 32) mod (2 ^ 31 - 1).
Proof.
  apply (lwip_rand_hardware_path 64 (Rand.Cpu true 0x80000005) 42).
  reflexivity.
Defined.

(** The hardware value 2^31 + 5 comes out as 6, 2^31 - 1 itself as 0. *)
Example lwip_rand_hardware_values :
  Rand.lwip_rand 64 (Rand.Cpu true 0x80000005) 42 = Some (6, 42) /\
  Rand.lwip_rand 64 (Rand.Cpu true 0x7fffffff) 42 = Some (0, 42) /\
  Rand.lwip_rand 64 (Rand.Cpu true 0x7ffffffe) 42 = Some (0x7ffffffe, 42).
Proof. repeat split. Qed.

(** * The clock *)

(** X6: the millisecond clock moves in whole seconds.  While the uptime
    is below 2^32 ms, [sys_now] is 1000 times the number of whole seconds,
    does not decrease, is the same for two ticks of one second, and
    [sys_jiffies] is the same value. *)
Theorem sys_now_whole_seconds (TIMER_FREQ t1 t2 : Z) :
  0 < TIMER_FREQ ->
  0 <= t1 <= t2 ->
  t2 < 2 ^ 64 ->
  t2 / TIMER_FREQ * 1000 < 2 ^ 32 ->
  Clock.sys_now TIMER_FREQ t1 = 1000 * (t1 / TIMER_FREQ) /\
  Clock.sys_now TIMER_FREQ t1 <= Clock.sys_now TIMER_FREQ t2 /\
  (t1 / TIMER_FREQ = t2 / TIMER_FREQ ->
   Clock.sys_now TIMER_FREQ t1 = Clock.sys_now TIMER_FREQ t2) /\
  Clock.sys_jiffies TIMER_FREQ t1 = Clock.sys_now TIMER_FREQ t1.
Proof.
  intros Hfreq Ht Ht2 Hup.
  assert (forall t, 0 <= t <= t2 ->
            Clock.sys_now TIMER_FREQ t = 1000 * (t / TIMER_FREQ)) as Hnow.
  { intros t Hrange. unfold Clock.sys_now, u32, u64.
    assert (0 <= t / TIMER_FREQ <= t2 / TIMER_FREQ) as Hq.
    { split; [apply Z.div_pos; lia|apply Z.div_le_mono; lia]. }
    rewrite (Z.mod_small t) by lia.
    rewrite (Z.mod_small (t / TIMER_FREQ * 1000) (2 ^ 64)) by lia.
    rewrite Z.mod_small by lia. lia. }
  rewrite !Hnow by lia.
  assert (t1 / TIMER_FREQ <= t2 / TIMER_FREQ) by (apply Z.div_le_mono; lia).
  change (Clock.sys_jiffies TIMER_FREQ t1) with (Clock.sys_now TIMER_FREQ t1).
  rewrite ?Hnow by lia.
  repeat split; lia.
Qed.

Lemma sys_now_whole_seconds_witness :
  Clock.sys_now 100 12345 = 1000 * (12345 / 100) /\
  Clock.sys_now 100 12345 <= Clock.sys_now 100 12399 /\
  (12345 / 100 = 12399 / 100 ->
   Clock.sys_now 100 12345 = Clock.sys_now 100 12399) /\
  Clock.sys_jiffies 100 12345 = Clock.sys_now 100 12345.
Proof.
  apply (sys_now_whole_seconds 100 12345 12399); try lia.
  all: vm_compute; congruence.
Defined.

(** * Semaphores and mutexes *)

Section SemProofs.
Import Sem.
Context `{KernelSem}.

(** X7: [sys_sem_new] fails exactly when the handle is NULL or the
    kernel's [sem_init] returns a negative status; a failure leaves the
    validity flag and the counter of live semaphores as they were, and a
    success sets the flag and counts the semaphore. *)
Theorem sys_sem_new_status (s : option sys_sem_t) (count : Z) (st : sem_stats) :
  let '(e, s', st') := sys_sem_new s count st in
  (e = ERR_VAL \/ e = ERR_OK) /\
  (e = ERR_VAL <->
   s = None \/ exists s0, s = Some s0 /\ fst (sem_init (sem s0) (u8 count)) < 0) /\
  (e = ERR_VAL -> sys_sem_valid s' = sys_sem_valid s /\ st' = st) /\
  (e = ERR_OK ->
   sys_sem_valid s' = TRUE /\ sem_used st' = sem_used st + 1).
Proof.
  destruct s as [s0|]; cbn [sys_sem_new].
  - destruct (sem_init (sem s0) (u8 count)) as [err k] eqn:Hinit.
    destruct (Z.ltb_spec err 0) as [Hneg|Hpos].
    + repeat split; try done; eauto.
      intros _. right. exists s0. rewrite Hinit. done.
    + repeat split; try done; eauto.
      intros [|(s1 & [= <-] & Hlt)]; [done|].
      rewrite Hinit in Hlt. cbn in Hlt. lia.
  - repeat split; try done; eauto.
Qed.

(** X8: after a successful [sys_sem_new], [sys_sem_free] makes the
    semaphore invalid and brings the counter of live semaphores back; the
    flag does not stop a second [sys_sem_free], which destroys the kernel
    semaphore again and takes one more off the counter.  The 16-bit counter
    of the program then reads one less than before the semaphore was
    created, modulo 2^16: 65535 when it started at 0.  The counter of
    mutexes is untouched. *)
Theorem sys_sem_new_free_free (s : sys_sem_t) (count : Z) (st : sem_stats) :
  0 <= fst (sem_init (sem s) (u8 count)) ->
  exists s1 : sys_sem_t,
    sys_sem_new (Some s) count st =
      (ERR_OK, Some s1,
       {| sem_used := sem_used st + 1; mutex_used := mutex_used st |}) /\
    sys_sem_valid (Some s1) = TRUE /\
    let '(s2, st2) :=
      sys_sem_free (Some s1)
        {| sem_used := sem_used st + 1; mutex_used := mutex_used st |} in
    let '(s3, st3) := sys_sem_free s2 st2 in
    sys_sem_valid s2 = FALSE /\ st2 = st /\
    s3 = Some {| sem := snd (sem_destroy (snd (sem_destroy (sem s1))));
                 valid := FALSE |} /\
    u16 (sem_used st3) = u16 (sem_used st - 1) /\
    (sem_used st = 0 -> u16 (sem_used st3) = 65535) /\
    mutex_used st3 = mutex_used st.
Proof.
  intros Hinit. unfold sys_sem_new.
  destruct (sem_init (sem s) (u8 count)) as [err k]. cbn [fst] in Hinit.
  destruct (Z.ltb_spec err 0) as [|_]; [lia|].
  eexists. split; [reflexivity|]. split; [reflexivity|].
  cbn. destruct st as [used mutexes]. cbn.
  split; [reflexivity|]. split; [f_equal; lia|]. split; [reflexivity|].
  replace (used + 1 - 1 - 1) with (used - 1) by lia.
  split; [reflexivity|]. split; [by intros ->|reflexivity].
Qed.

(** X9: a kernel failure that [sys_sem_new] reports is hidden by
    [sys_mutex_new]: when [sem_init] returns a negative status for a
    count of 1, the semaphore call answers [ERR_VAL] and counts nothing,
    while the mutex call answers [ERR_OK] and counts the mutex. *)
Theorem sys_mutex_new_hides_kernel_failure
    (m : sem_t) (v : Z) (st : sem_stats) :
  fst (sem_init m 1) < 0 ->
  sys_sem_new (Some {| sem := m; valid := v |}) 1 st =
    (ERR_VAL, Some {| sem := snd (sem_init m 1); valid := v |}, st) /\
  sys_mutex_new (Some m) st =
    (ERR_OK, Some (snd (sem_init m 1)),
     {| sem_used := sem_used st; mutex_used := mutex_used st + 1 |}).
Proof.
  intros Hfail. split; [|reflexivity].
  unfold sys_sem_new. cbn [sem valid]. change (u8 1) with 1.
  destruct (sem_init m 1) as [err k]. cbn [fst snd] in *.
  destruct (Z.ltb_spec err 0) as [_|]; [reflexivity|lia].
Qed.

End SemProofs.

Lemma sys_sem_new_status_example :
  @Sem.sys_sem_new Sem.no_sem (Some (@Sem.SysSem Sem.no_sem tt 7)) 0
    (Sem.SemStats 3 0) =
  (ERR_VAL, Some (@Sem.SysSem Sem.no_sem tt 7), Sem.SemStats 3 0).
Proof. reflexivity. Qed.

Lemma sys_sem_new_free_free_witness :
  let K := Sem.counting_sem in
  let st := Sem.SemStats 0 0 in
  exists s1 : @Sem.sys_sem_t K,
    @Sem.sys_sem_new K (Some (@Sem.SysSem K None FALSE)) 2 st =
      (ERR_OK, Some s1, Sem.SemStats (0 + 1) 0) /\
    @Sem.sys_sem_valid K (Some s1) = TRUE /\
    let '(s2, st2) := @Sem.sys_sem_free K (Some s1) (Sem.SemStats (0 + 1) 0) in
    let '(s3, st3) := @Sem.sys_sem_free K s2 st2 in
    @Sem.sys_sem_valid K s2 = FALSE /\ st2 = st /\
    s3 = Some (@Sem.SysSem K
                 (snd (@Sem.sem_destroy K
                         (snd (@Sem.sem_destroy K (@Sem.sem K s1)))))
                 FALSE) /\
    u16 (Sem.sem_used st3) = u16 (Sem.sem_used st - 1) /\
    (Sem.sem_used st = 0 -> u16 (Sem.sem_used st3) = 65535) /\
    Sem.mutex_used st3 = Sem.mutex_used st.
Proof.
  intros K st.
  apply (@sys_sem_new_free_free K (@Sem.SysSem K None FALSE) 2 st).
  cbn. lia.
Defined.

Lemma sys_mutex_new_hides_kernel_failure_witness :
  let K := Sem.no_sem in
  @Sem.sys_sem_new K (Some (@Sem.SysSem K tt FALSE)) 1 (Sem.SemStats 0 0) =
    (ERR_VAL, Some (@Sem.SysSem K tt FALSE), Sem.SemStats 0 0) /\
  @Sem.sys_mutex_new K (Some tt) (Sem.SemStats 0 0) =
    (ERR_OK, Some tt, Sem.SemStats 0 (0 + 1)).
Proof.
  intros K.
  apply (@sys_mutex_new_hides_kernel_failure K tt FALSE (Sem.SemStats 0 0)).
  cbn. lia.
Defined.

(** * The socket calls *)

Section SocketProofs.
Import Sockets.
Context `{LwipApi}.

(** Clearing the tag bit twice is clearing it once. *)
Lemma strip_strip (s : Z) :
  Z.land (Z.land s (Z.lnot LWIP_FD_BIT)) (Z.lnot LWIP_FD_BIT) =
  Z.land s (Z.lnot LWIP_FD_BIT).
Proof. by rewrite <- Z.land_assoc, Z.land_diag. Qed.


(** Unfold a call and split on what the stack returned. *)
Ltac run_call :=
  cbv [accept bind getpeername getsockname getsockopt setsockopt connect
       listen recv recvfrom send sendto socket fcntl shutdown
       fail_with ok_with];
  repeat match goal with
         | |- context [let '(_, _) := ?call in _] =>
             destruct call as [? ?] eqn:?
         | |- context [if ?b then _ else _] => destruct b eqn:?
         end;
  cbn [fst snd api getreent] in *.


(** X11: the calls that answer with a status ([bind], [connect],
    [listen], [getpeername], [getsockname]) return 0 or -1 and nothing else;
    the error slot of the C library is written exactly when -1 is returned,
    with the stack's error code. *)
Theorem status_calls_return_0_or_minus_1
    (s : Z) (name : ptr) (namelen : Z) (lenp : ptr) (backlog : Z) (ps : proc) :
  let good (r : Z * proc) :=
    (fst r = 0 /\ getreent (snd r) = getreent ps) \/
    (fst r = -1 /\ getreent (snd r) = errno (api (snd r))) in
  good (bind s name namelen ps) /\
  good (connect s name namelen ps) /\
  good (listen s backlog ps) /\
  good (getpeername s name lenp ps) /\
  good (getsockname s name lenp ps).
Proof.
  intros good. unfold good.
  repeat split; run_call; auto.
Qed.

(** X12: the calls that move data ([recv], [recvfrom], [send], [sendto])
    return the stack's count whenever it is not negative, 0 included,
    without touching the error slot, and return -1 with the stack's error
    code for every negative result. *)
Theorem transfer_calls_keep_counts
    (s : Z) (mem : ptr) (len flags : Z) (addr alen : ptr) (tolen : Z)
    (ps : proc) :
  let kept (stack : Z * api_t) (r : Z * proc) :=
    api (snd r) = snd stack /\
    (0 <= fst stack -> fst r = fst stack /\ getreent (snd r) = getreent ps) /\
    (fst stack < 0 -> fst r = -1 /\ getreent (snd r) = errno (snd stack)) in
  let fd := Z.land s (Z.lnot LWIP_FD_BIT) in
  kept (lwip_recv fd mem len flags (api ps)) (recv s mem len flags ps) /\
  kept (lwip_recvfrom fd mem len flags addr alen (api ps))
       (recvfrom s mem len flags addr alen ps) /\
  kept (lwip_send fd mem len flags (api ps)) (send s mem len flags ps) /\
  kept (lwip_sendto fd mem len flags addr tolen (api ps))
       (sendto s mem len flags addr tolen ps).
Proof.
  intros kept fd. unfold kept, fd.
  repeat split; run_call; cbn [fst snd] in *; lia || reflexivity.
Qed.

(** X13: an option the stack does not know is reported as set.  When the
    stack's call fails with error code [ENOPROTOOPT], [getsockopt] and
    [setsockopt] return 0 and leave the error slot as it was; with any
    other error code they return -1 and copy the code. *)
Theorem sockopt_unsupported_is_success
    (s level optname : Z) (optval optlen : ptr) (len : Z) (ps : proc) :
  let swallowed (stack : Z * api_t) (r : Z * proc) :=
    fst stack <> 0 ->
    (errno (snd stack) = ENOPROTOOPT ->
     r = (0, {| api := snd stack; getreent := getreent ps |})) /\
    (errno (snd stack) <> ENOPROTOOPT ->
     r = (-1, {| api := snd stack; getreent := errno (snd stack) |})) in
  let fd := Z.land s (Z.lnot LWIP_FD_BIT) in
  swallowed (lwip_getsockopt fd level optname optval optlen (api ps))
            (getsockopt s level optname optval optlen ps) /\
  swallowed (lwip_setsockopt fd level optname optval len (api ps))
            (setsockopt s level optname optval len ps).
Proof.
  intros swallowed fd. unfold swallowed, fd.
  split; intros Hfail; run_call; cbn [fst snd] in *;
    split; intros Herr; first [reflexivity | lia | congruence].
Qed.

(** [fcntl] and [shutdown] hand back what the stack returns, negative
    results included, and never write the error slot of the C library: a
    failure of these two calls leaves the slot with its old content. *)
Theorem fcntl_shutdown_untranslated (s cmd val how : Z) (ps : proc) :
  let fd := Z.land s (Z.lnot LWIP_FD_BIT) in
  fcntl s cmd val ps =
    (fst (lwip_fcntl fd cmd val (api ps)),
     {| api := snd (lwip_fcntl fd cmd val (api ps)); getreent := getreent ps |}) /\
  shutdown s how ps =
    (fst (lwip_shutdown fd how (api ps)),
     {| api := snd (lwip_shutdown fd how (api ps)); getreent := getreent ps |}) /\
  getreent (snd (fcntl s cmd val ps)) = getreent ps /\
  getreent (snd (shutdown s how ps)) = getreent ps.
Proof.
  intros fd. unfold fd. repeat split; run_call; reflexivity.
Qed.

End SocketProofs.


(** On the example stack: a socket is opened, used through its tagged
    descriptor, and an option the stack does not have is set "with
    success"; a call on a descriptor that is not open fails with the
    stack's error code in the error slot. *)
Example toy_stack_session :
  let K := Sockets.toy_stack in
  let ps0 := @Sockets.Proc K ([], 0) 0 in
  let '(s, ps1) := @Sockets.socket K 2 1 0 ps0 in
  let '(r1, ps2) := @Sockets.send K s 1000 64 0 ps1 in
  let '(r2, ps3) := @Sockets.setsockopt K s 1 2 1000 4 ps2 in
  let '(r3, ps4) := @Sockets.listen K 77 5 ps3 in
  (s, r1, r2, Sockets.getreent ps3, r3, Sockets.getreent ps4) =
  (1 + 2 ^ 30, 64, 0, 0, -1, 9).
Proof. reflexivity. Qed.

(** * [select], the mailboxes again, and [gethostname] *)

(** X14: [select] yields the processor once after every call the stack
    does not fail, returning the stack's count, 0 included, with the error
    slot untouched; when the stack fails it returns -1 with the stack's
    error code and does not yield. *)
Theorem select_yields_once_on_success `{Shim.LwipSockets}
    (maxfdp1 : Z) (r w e : option Shim.fd_set) (timeout : option Shim.timeval)
    (ps : Shim.process) :
  let stack := Shim.lwip_select maxfdp1 r w e timeout (Shim.lwip ps) in
  let res := Shim.select maxfdp1 r w e timeout ps in
  snd (fst res) = snd (fst stack) /\
  Shim.lwip (snd res) = snd stack /\
  (0 <= fst (fst stack) ->
   fst (fst res) = fst (fst stack) /\
   Shim.yields (snd res) = S (Shim.yields ps) /\
   Shim.getreent (snd res) = Shim.getreent ps) /\
  (fst (fst stack) < 0 ->
   fst (fst res) = -1 /\
   Shim.yields (snd res) = Shim.yields ps /\
   Shim.getreent (snd res) = Shim.errno (snd stack)).
Proof.
  intros stack res. unfold res, stack, Shim.select.
  destruct (Shim.lwip_select maxfdp1 r w e timeout (Shim.lwip ps))
    as [[ret sets] st].
  destruct (Z.ltb_spec ret 0); cbn; repeat split; intros; lia || reflexivity.
Qed.

Section MboxMore.
Import Mbox.
Context `{KernelMailbox}.

(** X15: a mailbox is counted by [sys_mbox_new] whether or not the
    kernel's initialisation succeeds, and [sys_mbox_free] takes it off
    again: after the pair the counter of live mailboxes has its old value
    and the mailbox is not valid. *)
Theorem sys_mbox_new_free_balanced
    (m : sys_mbox_t) (size : Z) (st : sys_stats) :
  let '(e, m1, st1) := sys_mbox_new (Some m) size st in
  let '(m2, st2) := sys_mbox_free m1 st1 in
  (e = ERR_OK \/ e = ERR_MEM) /\
  mbox_used st1 = mbox_used st + 1 /\
  sys_mbox_valid m1 = TRUE /\
  sys_mbox_valid m2 = FALSE /\
  st2 = st.
Proof.
  unfold sys_mbox_new. cbn [mailbox valid].
  destruct (mailbox_ptr_init (mailbox m)) as [err box].
  destruct st as [used].
  destruct (err =? 0); cbn; repeat split; auto; f_equal; lia.
Qed.

(** X16: posting and fetching do not look at the validity flag and do not
    change it: on a mailbox marked invalid by [sys_mbox_set_invalid] the
    non-blocking post and fetch do to the kernel mailbox what they do on
    the valid one, with the same status and the same message. *)
Theorem sys_mbox_post_fetch_ignore_validity (m : sys_mbox_t) (msg : ptr) :
  let inv := sys_mbox_set_invalid m in
  mailbox inv = mailbox m /\
  fst (sys_mbox_trypost inv msg) = fst (sys_mbox_trypost m msg) /\
  mailbox (snd (sys_mbox_trypost inv msg)) =
    mailbox (snd (sys_mbox_trypost m msg)) /\
  valid (snd (sys_mbox_trypost m msg)) = valid m /\
  valid (snd (sys_mbox_trypost inv msg)) = FALSE /\
  fst (sys_arch_mbox_tryfetch inv) = fst (sys_arch_mbox_tryfetch m) /\
  mailbox (snd (sys_arch_mbox_tryfetch inv)) =
    mailbox (snd (sys_arch_mbox_tryfetch m)) /\
  valid (snd (sys_arch_mbox_tryfetch m)) = valid m.
Proof.
  intros inv. unfold inv, sys_mbox_set_invalid, sys_mbox_trypost,
    sys_arch_mbox_tryfetch. cbn [mailbox valid].
  destruct (mailbox_ptr_trypost (mailbox m) msg) as [err box].
  destruct (mailbox_ptr_tryfetch (mailbox m)) as [[ret got] box'].
  destruct (err =? 0), (ret =? 0); cbn; repeat split.
Qed.

End MboxMore.

Section HostnameProofs.
Import Sockets.

Lemma strncpy_parts (dst src : list ascii) (n : nat) :
  (n <= length dst)%nat ->
  length (strncpy dst src n) = length dst /\
  take n (strncpy dst src n) = take n (src ++ replicate n zero) /\
  drop n (strncpy dst src n) = drop n dst.
Proof.
  intros Hn. unfold strncpy.
  assert (length (take n (src ++ replicate n zero)) = n) as Hlen.
  { rewrite length_take, length_app, length_replicate. lia. }
  split; [rewrite length_app, Hlen, length_drop; lia|].
  split; [by rewrite take_app_length'|by rewrite drop_app_length'].
Qed.

(** X17: [gethostname] always returns 0 and writes exactly [len]
    characters, leaving the rest of the buffer as it was.  With room for 7
    characters or more the buffer holds "hermit" and NULs up to [len]; with
    room for 6 or fewer it holds the first [len] characters of "hermit" and
    no terminator. *)
Theorem gethostname_fills_len (name : list ascii) (len : Z) :
  0 <= len <= Z.of_nat (length name) ->
  let n := Z.to_nat len in
  let out := snd (gethostname name len) in
  fst (gethostname name len) = 0 /\
  length out = length name /\
  drop n out = drop n name /\
  (7 <= len ->
   take n out = list_ascii_of_string "hermit" ++ replicate (n - 6) zero) /\
  (len <= 6 ->
   take n out = take n (list_ascii_of_string "hermit") /\
   Forall (fun c => c <> zero) (take n out)).
Proof.
  intros Hlen n out. unfold out, gethostname. cbn [fst snd]. fold n.
  destruct (strncpy_parts name (list_ascii_of_string "hermit") n ltac:(lia))
    as (Hsize & Htake & Hdrop).
  split; [reflexivity|]. split; [exact Hsize|]. split; [exact Hdrop|].
  rewrite Htake. split.
  - intros Hbig. rewrite take_app_ge by (cbn; lia).
    change (length (list_ascii_of_string "hermit")) with 6%nat.
    f_equal. rewrite take_replicate. f_equal. lia.
  - intros Hsmall. assert (n <= 6)%nat as Hn by lia. clearbody n.
    do 7 (destruct n as [|n]; [by repeat constructor|]). lia.
Qed.

End HostnameProofs.

Lemma gethostname_fills_len_witness :
  let name := replicate 8 "x"%char in
  let n := Z.to_nat 4 in
  let out := snd (Sockets.gethostname name 4) in
  fst (Sockets.gethostname name 4) = 0 /\
  length out = length name /\
  drop n out = drop n name /\
  (7 <= 4 ->
   take n out = list_ascii_of_string "hermit" ++ replicate (n - 6) zero) /\
  (4 <= 6 ->
   take n out = take n (list_ascii_of_string "hermit") /\
   Forall (fun c => c <> zero) (take n out)).
Proof.
  apply (gethostname_fills_len (replicate 8 "x"%char) 4).
  cbn. lia.
Defined.

(** A buffer of 8 characters: [gethostname(name, 8)] stores the name and
    its terminator, [gethostname(name, 4)] stores "herm" and none. *)
Example gethostname_8_and_4 :
  snd (Sockets.gethostname (replicate 8 "x"%char) 8) =
    list_ascii_of_string "hermit" ++ [zero; zero] /\
  snd (Sockets.gethostname (replicate 8 "x"%char) 4) =
    list_ascii_of_string "hermxxxx".
Proof. split; reflexivity. Qed.

(** * More on the network driver *)

Section DriverMore.
Import UhyveNet UhyveMore UhyveTrace.
Context `{Platform}.

Ltac drv_steps :=
  cbv [mbind drv_bind mret drv_ret kprintf emit LINK_STATS_INC eoi gets
       call_stack uhyve_net_write_sync];
  cbn [fst snd trace stack rx_buf host_rx uhyve_net_init_ok].

Lemma net_reads_app (evs1 evs2 : list event) :
  net_reads (evs1 ++ evs2) = net_reads evs1 ++ net_reads evs2.
Proof. apply omap_app. Qed.

Lemma net_allocs_app (evs1 evs2 : list event) :
  net_allocs (evs1 ++ evs2) = net_allocs evs1 ++ net_allocs evs2.
Proof. apply omap_app. Qed.

(** The body of the loop asks the pool once, for [len] and the padding
    as a [u16_t], and reads nothing. *)
Lemma poll_body_asks (len : Z) (w : world) :
  exists (evs : list event) (st : stack_t),
    poll_body len w =
      (len + ETH_PAD_SIZE,
       {| uhyve_net_init_ok := uhyve_net_init_ok w; rx_buf := rx_buf w;
          host_rx := host_rx w; stack := st; trace := trace w ++ evs |}) /\
    net_reads evs = [] /\ net_allocs evs = [u16 (len + ETH_PAD_SIZE)].
Proof.
  unfold poll_body. drv_steps.
  destruct (pbuf_alloc (u16 (len + ETH_PAD_SIZE)) (stack w)) as [[p|] st1].
  - drv_steps.
    destruct (tcpip_callback_with_block _ st1) as [e st2].
    destruct (decide (e = ERR_OK)) as [He|He]; drv_steps;
      eexists _, _; rewrite <- !app_assoc; by split.
  - drv_steps. eexists _, _. rewrite <- !app_assoc. by split.
Qed.

Lemma poll_loop_asks (fuel : nat) :
  forall (len : Z) (w : world),
    (length (host_rx w) < fuel)%nat ->
    let lens := len_after_reads ETH_PAD_SIZE len (host_rx w) in
    net_reads (trace (snd (poll_loop fuel len w))) =
      net_reads (trace w) ++ len :: lens /\
    net_allocs (trace (snd (poll_loop fuel len w))) =
      net_allocs (trace w) ++ map u16 lens.
Proof.
  induction fuel as [|fuel IH]; intros len w Hfuel; [lia|].
  cbn [poll_loop]. cbv [mbind drv_bind uhyve_net_read_sync].
  destruct (host_rx w) as [|f pending] eqn:Hrx;
    cbn [host_netread len_after_reads].
  - cbn [Z.eqb]. cbv [mret drv_ret]. cbn [snd trace map].
    rewrite net_reads_app, net_allocs_app. cbn. by rewrite app_nil_r.
  - cbn [Z.eqb].
    match goal with
    | |- context [poll_body ?n ?w1] =>
        destruct (poll_body_asks n w1) as (evs1 & st1 & -> & Hnoread & Hask)
    end.
    cbn [uhyve_net_init_ok rx_buf host_rx trace].
    match goal with
    | |- context [poll_loop fuel ?n ?w2] =>
        destruct (IH n w2) as [Hreads Hallocs]
    end.
    { cbn in Hfuel |- *. lia. }
    cbn [host_rx trace] in Hreads, Hallocs.
    rewrite Hreads, Hallocs.
    rewrite !net_reads_app, !net_allocs_app, Hnoread, Hask.
    cbn [map]. rewrite <- !app_assoc. cbn.
    rewrite ?app_nil_r. done.
Qed.

(** Without padding, no read asks for more than the read before it got. *)
Lemma len_after_reads_shrinks (pending : list (list byte)) :
  forall (len : Z) (i : nat) (a b : Z),
    0 <= len ->
    (len :: len_after_reads 0 len pending) !! i = Some a ->
    len_after_reads 0 len pending !! i = Some b ->
    0 <= b <= a.
Proof.
  induction pending as [|f pending IH]; intros len i a b Hlen Ha Hb;
    [discriminate Hb|].
  cbn [len_after_reads] in *.
  assert (0 <= Z.of_nat (length (take (Z.to_nat len) f)) + 0 <= len) as Hcut.
  { rewrite length_take. lia. }
  destruct i as [|i].
  - cbn in Ha, Hb. injection Ha as <-. injection Hb as <-. exact Hcut.
  - cbn [lookup list_lookup] in Ha, Hb.
    eapply IH; [|exact Ha|exact Hb]. lia.
Qed.

(** X18: in one invocation of the poll [len] is set once, to
    [RX_BUF_LEN], and is the in-out length of every read: the first read asks
    for [RX_BUF_LEN] bytes, every later read asks for the length the read
    before it stored (plus the padding), and the pool is asked for exactly
    these lengths.  Without padding the lengths never grow, so a frame
    longer than the frame read before it reaches the stack cut short. *)
Theorem poll_read_lengths (w : world) :
  uhyve_net_init_ok w <> 0 ->
  let lens := len_after_reads ETH_PAD_SIZE RX_BUF_LEN (host_rx w) in
  let w' := snd (uhyve_netif_poll w) in
  net_reads (trace w') = net_reads (trace w) ++ RX_BUF_LEN :: lens /\
  net_allocs (trace w') = net_allocs (trace w) ++ map u16 lens /\
  (ETH_PAD_SIZE = 0 -> 0 <= RX_BUF_LEN ->
   forall (i : nat) (a b : Z),
     (RX_BUF_LEN :: lens) !! i = Some a -> lens !! i = Some b -> 0 <= b <= a).
Proof.
  intros Hinit lens w'.
  assert (net_reads (trace w') = net_reads (trace w) ++ RX_BUF_LEN :: lens /\
          net_allocs (trace w') = net_allocs (trace w) ++ map u16 lens)
    as [Hreads Hallocs].
  { unfold w', uhyve_netif_poll, uhyve_netif_poll_fuel.
    cbv [mbind drv_bind gets]. cbn [snd].
    destruct (Z.eqb_spec (uhyve_net_init_ok w) 0) as [|_]; [contradiction|].
    destruct (poll_loop_asks (S (length (host_rx w))) RX_BUF_LEN w)
      as [Hreads Hallocs]; [lia|].
    destruct (poll_loop_drains (S (length (host_rx w))) RX_BUF_LEN w)
      as (evs & rx & st & Hloop & _); [lia|].
    rewrite Hloop in *. drv_steps. cbn [snd trace] in Hreads, Hallocs.
    rewrite net_reads_app, net_allocs_app, Hreads, Hallocs.
    cbn. by rewrite !app_nil_r. }
  split; [exact Hreads|]. split; [exact Hallocs|].
  intros Hpad Hlen i a b. unfold lens. rewrite Hpad.
  by apply len_after_reads_shrinks.
Qed.

(** X19: in one invocation of the poll the pool is asked once per pending
    frame, and every buffer it gives is offered to the worker once.  The
    buffers the worker takes are counted in [link.recv] and are not freed;
    the buffers it refuses are freed, each right after its hand-off and its
    count in [link.drop], and no other buffer is freed: the buffers freed
    are exactly the refused hand-offs, in order.  [link.drop] counts the
    failed allocations and the freed buffers. *)
Theorem poll_buffer_accounting (w : world) :
  uhyve_net_init_ok w <> 0 ->
  let outs := rx_outcomes RX_BUF_LEN (rx_buf w) (stack w) (host_rx w) in
  exists evs : list event,
    trace (snd (uhyve_netif_poll w)) = trace w ++ evs /\
    count is_alloc evs = length (host_rx w) /\
    count is_callback evs =
      (count (is_stat link_recv) evs + count is_free evs)%nat /\
    count (is_stat link_drop) evs =
      (count (is_stat link_memerr) evs + count is_free evs)%nat /\
    (count is_free evs <= count is_callback evs)%nat /\
    evs = flat_map frame_events outs ++
          [NetRead (last_len RX_BUF_LEN outs); Eoi] /\
    handoffs evs = offered outs /\
    frees evs = refused outs /\
    count (is_stat link_recv) evs = length (accepted outs) /\
    ((forall p st, fst (tcpip_callback_with_block p st) = ERR_OK) ->
     frees evs = [] /\
     count (is_stat link_recv) evs = count is_callback evs) /\
    ((forall p st, fst (tcpip_callback_with_block p st) <> ERR_OK) ->
     frees evs = handoffs evs /\
     count (is_stat link_recv) evs = 0%nat).
Proof.
  intros Hinit outs. unfold uhyve_netif_poll, uhyve_netif_poll_fuel.
  cbv [mbind drv_bind gets]. cbn [snd].
  destruct (Z.eqb_spec (uhyve_net_init_ok w) 0) as [|_]; [contradiction|].
  destruct (poll_loop_trace (S (length (host_rx w))) RX_BUF_LEN w)
    as (rx & st & ->); [lia|].
  fold outs. drv_steps.
  exists (flat_map frame_events outs ++
          [NetRead (last_len RX_BUF_LEN outs); Eoi]).
  destruct (frames_tally outs)
    as (Hh & Hf & Hcb & Hfree & Hrecv & Hmem & Hdrop & Hsplit & Hpart &
        _ & _ & Halloc).
  pose proof (rx_outcomes_length (host_rx w) RX_BUF_LEN (rx_buf w) (stack w))
    as Hlen.
  fold outs in Hlen.
  assert (handoffs (flat_map frame_events outs ++
                    [NetRead (last_len RX_BUF_LEN outs); Eoi]) = offered outs)
    as Hh'.
  { unfold handoffs in *. rewrite omap_app, Hh. cbn. by rewrite app_nil_r. }
  assert (frees (flat_map frame_events outs ++
                 [NetRead (last_len RX_BUF_LEN outs); Eoi]) = refused outs)
    as Hf'.
  { unfold frees in *. rewrite omap_app, Hf. cbn. by rewrite app_nil_r. }
  rewrite Hh', Hf', !count_app, Hcb, Hfree, Hrecv, Hmem, Hdrop, Halloc.
  cbn [count List.filter is_alloc is_callback is_stat is_free length].
  split; [by rewrite <- !app_assoc|].
  split; [lia|]. split; [lia|]. split; [lia|]. split; [lia|].
  split; [reflexivity|]. split; [reflexivity|]. split; [reflexivity|].
  split; [lia|]. split.
  - intros Hworker.
    destruct (rx_outcomes_all_accepted (host_rx w) Hworker RX_BUF_LEN
                (rx_buf w) (stack w)) as [Hnone Hsame].
    fold outs in Hnone, Hsame. rewrite Hnone, Hsame. split; [reflexivity|lia].
  - intros Hworker.
    destruct (rx_outcomes_all_refused (host_rx w) Hworker RX_BUF_LEN
                (rx_buf w) (stack w)) as [Hnone Hsame].
    fold outs in Hnone, Hsame. rewrite Hnone, Hsame. by split.
Qed.

(** ** Output, once more *)

(** X20: what [uhyve_netif_output] does to the world is to extend the
    trace.  A frame it accepts adds its write requests and then one count in
    [link.xmit]; a frame it refuses adds one log line with the length of the
    frame, and nothing else: no write and no count; nothing is read,
    allocated, handed over or acknowledged, and the flag, the receive
    buffer, the pending frames and the stack are as before: the driver sends
    also when it is not initialised. *)
Theorem uhyve_netif_output_effects (p : pbuf) (w : world) :
  let w' := snd (uhyve_netif_output p w) in
  uhyve_net_init_ok w' = uhyve_net_init_ok w /\
  rx_buf w' = rx_buf w /\ host_rx w' = host_rx w /\ stack w' = stack w /\
  exists evs : list event,
    trace w' = trace w ++ evs /\
    count is_read evs = 0%nat /\ count is_alloc evs = 0%nat /\
    count is_callback evs = 0%nat /\ count is_eoi evs = 0%nat /\
    (tot_len p <= 1792 ->
     evs = map write_of (chain (drop_padding p)) ++ [LinkStatsInc link_xmit]) /\
    (1792 < tot_len p ->
     count (is_stat link_xmit) evs = 0%nat /\ net_writes evs = [] /\
     evs =
       [Kprintf
          "uhyve_netif_output: packet (%i bytes) is longer than 1792 bytes"
          [tot_len p]]).
Proof.
  intros w'. unfold w', uhyve_netif_output.
  destruct (Z.ltb_spec 1792 (tot_len p)) as [Hbig|Hok].
  - drv_steps. repeat split; try reflexivity.
    eexists. split; [reflexivity|]. repeat split; try reflexivity; lia.
  - cbv [mbind drv_bind]. rewrite output_loop_trace. drv_steps.
    unfold log. cbn [uhyve_net_init_ok rx_buf host_rx stack trace].
    repeat split; try reflexivity.
    eexists. split; [by rewrite <- app_assoc|].
    assert (forall f, (forall q, f (write_of q) = false) ->
              count f (map write_of (chain (drop_padding p))) = 0%nat)
      as Hwrites.
    { intros f Hf. unfold count.
      induction (chain (drop_padding p)) as [|q l IH]; [reflexivity|].
      cbn [map List.filter]. by rewrite Hf. }
    rewrite !count_app, !Hwrites by reflexivity.
    repeat split; try reflexivity; lia.
Qed.

(** ** The copy out of the receive buffer, once more *)

(** X21: the copy loop is right on every chain on which the 8-bit offset
    does not wrap (no segment but the first starts at offset 256 or beyond,
    and no length is negative), single-segment buffers included: the chain
    then holds the first bytes of the receive buffer, as many as its
    segments are long. *)
Theorem rx_copy_exact_without_wrap (rx : list byte) (p : pbuf) :
  no_wrap 0 p ->
  chain_len p <= Z.of_nat (length rx) ->
  chain_bytes (rx_copy rx 0 p) = take (Z.to_nat (chain_len p)) rx.
Proof.
  intros Hfit Hrx.
  exact (rx_copy_no_wrap rx p 0 ltac:(lia) Hfit ltac:(lia)).
Qed.

(** X22: the copy loop keeps the layout of the chain (the lengths and total
    lengths of its segments), and its first segment is always right: it
    holds the first [len] bytes of the receive buffer, whatever follows in
    the chain. *)
Theorem rx_copy_layout_and_head (rx : list byte) (p : pbuf) :
  0 <= len p <= Z.of_nat (length rx) ->
  map len (chain (rx_copy rx 0 p)) = map len (chain p) /\
  map tot_len (chain (rx_copy rx 0 p)) = map tot_len (chain p) /\
  seg_bytes (rx_copy rx 0 p) = take (Z.to_nat (len p)) rx.
Proof.
  intros Hlen.
  assert (forall q pos,
            map len (chain (rx_copy rx pos q)) = map len (chain q) /\
            map tot_len (chain (rx_copy rx pos q)) = map tot_len (chain q))
    as Hlayout.
  { induction q as [pl l tl|q pl l tl IH] using pbuf_chain_ind; intros pos.
    - by split.
    - cbn [rx_copy chain map len tot_len].
      destruct (IH (u8 (pos + l))) as [-> ->]. by split. }
  destruct (Hlayout p 0) as [Hl Ht].
  split; [exact Hl|]. split; [exact Ht|].
  destruct p as [nx pl l tl]. cbn [len] in Hlen.
  cbn [rx_copy]. unfold seg_bytes. cbn [len payload drop].
  apply memcpy_take. lia.
Qed.

End DriverMore.

(** ** Decoding, once more *)

Section MacMore.
Import UhyveNet.

(** X23: [dehex] is the digit table of the Standard Library with 0 for
    every character that is no hexadecimal digit: its value is always
    between 0 and 15, upper and lower case agree, and a character that is
    no digit cannot be told from the digit 0. *)
Theorem dehex_table (c : ascii) :
  dehex c = match HexString.ascii_to_digit c with
            | Some v => Z.of_N v
            | None => 0
            end /\
  0 <= dehex c <= 15.
Proof.
  destruct (HexString.ascii_to_digit c) as [v|] eqn:Hc.
  - destruct (dehex_digit c v Hc) as [-> Hv]. lia.
  - rewrite (dehex_other c Hc). lia.
Qed.

Lemma dehex_range (c : ascii) : 0 <= dehex c < 16.
Proof.
  destruct (HexString.ascii_to_digit c) as [v|] eqn:Hc.
  - destruct (dehex_digit c v Hc) as [-> Hv]. lia.
  - rewrite (dehex_other c Hc). lia.
Qed.

(** X24: the loop of [uhyve_netif_init] accepts every string.  Byte i of
    the hardware address is 16 * dehex(s[3i]) + dehex(s[3i+1]), with NUL
    past the end of the string; the characters at the positions 3i+2 are
    skipped without being looked at, and a character that is no digit
    counts as 0. *)
Theorem hwaddr_loop_positions (s : list ascii) (hwaddr : list Z) :
  length hwaddr = 6%nat ->
  uhyve_netif_init_hwaddr s hwaddr =
  map (fun i : nat =>
         16 * dehex (nth (3 * i) s zero) + dehex (nth (3 * i + 1) s zero))
      (seq 0 6).
Proof.
  intros Hhw.
  do 6 (destruct hwaddr as [|? hwaddr]; [discriminate Hhw|]).
  destruct hwaddr; [|discriminate Hhw].
  assert (forall a b : ascii,
            u8 (Z.lor (u8 (Z.shiftl (dehex a) 4)) (dehex b)) =
            16 * dehex a + dehex b) as Hpack.
  { intros a b. apply pack_nibbles; apply dehex_range. }
  do 17 (destruct s as [|? s];
         [cbn -[dehex Z.mul Z.add]; rewrite <- ?Hpack; reflexivity|]).
  cbn -[dehex Z.mul Z.add]. rewrite <- ?Hpack. reflexivity.
Qed.

End MacMore.

(** ** Initialisation *)

Section InitProofs.
Import UhyveNet UhyveMore.
Context `{Platform} `{NetifOptions}.

(** Before the driver is initialised a poll changes nothing. *)
Lemma uhyve_netif_poll_before_init (w : world) :
  uhyve_net_init_ok w = 0 -> uhyve_netif_poll w = (tt, w).
Proof.
  intros Hinit. unfold uhyve_netif_poll, uhyve_netif_poll_fuel.
  cbv [mbind drv_bind gets mret drv_ret]. by rewrite Hinit.
Qed.

(** X25: the first [uhyve_netif_init] returns [ERR_OK], installs the
    handler on line 11, opens the poll (which until then does nothing) and
    ends with one poll pass of its own: the frames that were waiting in the
    hypervisor are all read and handled, and the pass ends with the one
    acknowledgment.  The interface it leaves has a hardware address of 6
    bytes decoded from the first 18 characters the hypervisor gives, an MTU
    of 32768, [uhyve_netif_output] as link output, and every flag it had
    before.  A second initialisation stops at the assertion that the device
    is not yet set. *)
Theorem uhyve_netif_init_opens_and_drains
    (host_mac : list ascii) (nif : netif) (s : statics) (w : world) :
  uhyve_netif s = false ->
  exists (nif' : netif) (s' : statics) (w' : world) (evs : list event),
    uhyve_netif_init host_mac (Some nif) s w = Some (ERR_OK, nif', s', w') /\
    (uhyve_net_init_ok w = 0 -> uhyve_netif_poll w = (tt, w)) /\
    uhyve_net_init_ok w' = 1 /\
    host_rx w' = [] /\
    trace w' =
      trace w ++
      [Kprintf "uhyve_netif_init: Found uhyve_net interface" [];
       Kprintf "uhye_netif uses irq %d" [11];
       Kprintf "uhyve_netif_init: OK" []] ++ evs /\
    count is_eoi evs = 1%nat /\ last evs = Some Eoi /\
    count is_read evs = S (length (host_rx w)) /\
    (count is_callback evs + count (is_stat link_memerr) evs)%nat =
      length (host_rx w) /\
    irq_line s' = Some 11 /\
    hwaddr_len nif' = 6 /\
    hwaddr nif' = uhyve_netif_init_hwaddr (take 18 host_mac) (hwaddr nif) /\
    mtu nif' = 32768 /\
    linkoutput nif' = Some uhyve_netif_output_fn /\
    (forall i, 0 <= i < 8 -> Z.testbit (flags nif) i = true ->
               Z.testbit (flags nif') i = true) /\
    uhyve_netif_init host_mac (Some nif') s' w' = None.
Proof.
  intros Hfirst. unfold uhyve_netif_init. rewrite Hfirst.
  cbv [kprintf emit]. cbn [snd].
  unfold uhyve_netif_poll at 1, uhyve_netif_poll_fuel.
  cbv [mbind drv_bind gets set_init_ok].
  cbn [snd uhyve_net_init_ok host_rx trace stack rx_buf Z.eqb].
  match goal with
  | |- context [poll_loop ?fuel ?n ?w1] =>
      destruct (poll_loop_drains fuel n w1)
        as (evs & rx & st & Hloop & Hreads & Hevs); [cbn; lia|]
  end.
  cbn [uhyve_net_init_ok host_rx trace] in Hloop, Hreads, Hevs.
  rewrite Hloop. cbv [eoi emit mret drv_ret]. cbn [snd trace].
  eexists _, _, _, ((NetRead RX_BUF_LEN :: evs) ++ [Eoi]).
  split; [reflexivity|].
  split; [apply uhyve_netif_poll_before_init|].
  cbn [uhyve_net_init_ok host_rx trace irq_line hwaddr_len hwaddr mtu
       linkoutput flags uhyve_netif].
  destruct Hevs as (Heoi & _ & Hcb & _).
  rewrite !count_app, last_snoc.
  change (count ?f (NetRead RX_BUF_LEN :: evs)) with
    (count f [NetRead RX_BUF_LEN] + count f evs)%nat.
  cbn [count List.filter is_eoi is_read is_callback is_stat length].
  repeat split; try reflexivity; try lia.
  - rewrite <- !app_assoc. reflexivity.
  - intros i Hi Hbit. unfold u8.
    rewrite Z.mod_pow2_bits_low, Z.lor_spec, Hbit by lia. reflexivity.
Qed.

End InitProofs.

(** ** The driver on concrete frames, once more *)

Lemma rx_copy_exact_without_wrap_witness :
  let rx := replicate 100 Byte.x01 ++ replicate 100 Byte.x02 in
  let tail := UhyveNet.Pbuf None (replicate 60 Byte.x00) 60 60 in
  let p := UhyveNet.Pbuf (Some tail) (replicate 100 Byte.x00) 100 160 in
  UhyveNet.chain_bytes (UhyveNet.rx_copy rx 0 p) =
  take (Z.to_nat (UhyveNet.chain_len p)) rx.
Proof.
  intros rx tail p.
  apply (rx_copy_exact_without_wrap rx p).
  - cbn. lia.
  - vm_compute. discriminate.
Defined.

Lemma rx_copy_layout_and_head_witness :
  let rx := replicate 592 Byte.x01 ++ replicate 8 Byte.x02 in
  let tail := UhyveNet.Pbuf None (replicate 8 Byte.x00) 8 8 in
  let p := UhyveNet.Pbuf (Some tail) (replicate 592 Byte.x00) 592 600 in
  map UhyveNet.len (UhyveNet.chain (UhyveNet.rx_copy rx 0 p)) =
    map UhyveNet.len (UhyveNet.chain p) /\
  map UhyveNet.tot_len (UhyveNet.chain (UhyveNet.rx_copy rx 0 p)) =
    map UhyveNet.tot_len (UhyveNet.chain p) /\
  UhyveNet.seg_bytes (UhyveNet.rx_copy rx 0 p) =
    take (Z.to_nat (UhyveNet.len p)) rx.
Proof.
  intros rx tail p.
  apply (rx_copy_layout_and_head rx p).
  vm_compute. split; discriminate.
Defined.

Lemma poll_read_lengths_witness :
  let P := UhyveNet.pool592 in
  let w := @UhyveNet.running P tt
             [replicate 60 Byte.x01; replicate 100 Byte.x02;
              replicate 40 Byte.x03] in
  let lens :=
    UhyveMore.len_after_reads (@UhyveNet.ETH_PAD_SIZE P)
      (@UhyveNet.RX_BUF_LEN P) (UhyveNet.host_rx w) in
  let w' := snd (UhyveNet.uhyve_netif_poll w) in
  UhyveMore.net_reads (UhyveNet.trace w') =
    UhyveMore.net_reads (UhyveNet.trace w) ++ @UhyveNet.RX_BUF_LEN P :: lens /\
  UhyveMore.net_allocs (UhyveNet.trace w') =
    UhyveMore.net_allocs (UhyveNet.trace w) ++ map u16 lens /\
  (@UhyveNet.ETH_PAD_SIZE P = 0 -> 0 <= @UhyveNet.RX_BUF_LEN P ->
   forall (i : nat) (a b : Z),
     (@UhyveNet.RX_BUF_LEN P :: lens) !! i = Some a ->
     lens !! i = Some b -> 0 <= b <= a).
Proof.
  intros P w.
  apply (@poll_read_lengths P w). cbn. lia.
Defined.

(** The lengths of that poll: the frame of 100 bytes comes after one of 60
    and is read, and handed on, as 60 bytes. *)
Example poll_read_lengths_three_frames :
  let P := UhyveNet.pool592 in
  let w := @UhyveNet.running P tt
             [replicate 60 Byte.x01; replicate 100 Byte.x02;
              replicate 40 Byte.x03] in
  UhyveMore.net_reads (UhyveNet.trace (snd (UhyveNet.uhyve_netif_poll w))) =
    [2048; 60; 60; 40] /\
  UhyveMore.net_allocs (UhyveNet.trace (snd (UhyveNet.uhyve_netif_poll w))) =
    [60; 60; 40].
Proof. split; by vm_compute. Qed.

Lemma poll_buffer_accounting_witness :
  let P := UhyveNet.scripted_platform 2048 (UhyveNet.pool_layout 592)
             (fun p => UhyveNet.tot_len p <? 50) in
  let w := @UhyveNet.running P tt
             [replicate 60 Byte.x01; replicate 40 Byte.x03] in
  let outs := @UhyveTrace.rx_outcomes P UhyveNet.RX_BUF_LEN
                (UhyveNet.rx_buf w) (UhyveNet.stack w) (UhyveNet.host_rx w) in
  exists evs : list UhyveNet.event,
    UhyveNet.trace (snd (UhyveNet.uhyve_netif_poll w)) =
      UhyveNet.trace w ++ evs /\
    UhyveNet.count UhyveNet.is_alloc evs = length (UhyveNet.host_rx w) /\
    UhyveNet.count UhyveNet.is_callback evs =
      (UhyveNet.count (UhyveNet.is_stat UhyveNet.link_recv) evs +
       UhyveNet.count UhyveNet.is_free evs)%nat /\
    UhyveNet.count (UhyveNet.is_stat UhyveNet.link_drop) evs =
      (UhyveNet.count (UhyveNet.is_stat UhyveNet.link_memerr) evs +
       UhyveNet.count UhyveNet.is_free evs)%nat /\
    (UhyveNet.count UhyveNet.is_free evs <=
     UhyveNet.count UhyveNet.is_callback evs)%nat /\
    evs = flat_map UhyveTrace.frame_events outs ++
          [UhyveNet.NetRead (UhyveTrace.last_len UhyveNet.RX_BUF_LEN outs);
           UhyveNet.Eoi] /\
    UhyveTrace.handoffs evs = UhyveTrace.offered outs /\
    UhyveTrace.frees evs = UhyveTrace.refused outs /\
    UhyveNet.count (UhyveNet.is_stat UhyveNet.link_recv) evs =
      length (UhyveTrace.accepted outs) /\
    ((forall p st,
        fst (@UhyveNet.tcpip_callback_with_block P p st) = ERR_OK) ->
     UhyveTrace.frees evs = [] /\
     UhyveNet.count (UhyveNet.is_stat UhyveNet.link_recv) evs =
       UhyveNet.count UhyveNet.is_callback evs) /\
    ((forall p st,
        fst (@UhyveNet.tcpip_callback_with_block P p st) <> ERR_OK) ->
     UhyveTrace.frees evs = UhyveTrace.handoffs evs /\
     UhyveNet.count (UhyveNet.is_stat UhyveNet.link_recv) evs = 0%nat).
Proof.
  intros P w.
  apply (@poll_buffer_accounting P w). cbn. lia.
Defined.

(** Of a 60-byte and a 40-byte frame the worker of this platform takes the
    second: the first is handed over, counted as dropped and freed, the
    second is handed over and counted as received. *)
Example poll_frees_the_refused_buffer :
  let P := UhyveNet.scripted_platform 2048 (UhyveNet.pool_layout 592)
             (fun p => UhyveNet.tot_len p <? 50) in
  let w := @UhyveNet.running P tt
             [replicate 60 Byte.x01; replicate 40 Byte.x03] in
  let evs := UhyveNet.trace (snd (UhyveNet.uhyve_netif_poll w)) in
  map UhyveNet.tot_len (UhyveTrace.handoffs evs) = [60; 40] /\
  map UhyveNet.tot_len (UhyveTrace.frees evs) = [60] /\
  UhyveNet.count (UhyveNet.is_stat UhyveNet.link_recv) evs = 1%nat /\
  UhyveNet.count (UhyveNet.is_stat UhyveNet.link_drop) evs = 1%nat.
Proof. vm_compute. repeat split. Qed.

Lemma hwaddr_loop_positions_witness :
  UhyveNet.uhyve_netif_init_hwaddr
    (list_ascii_of_string "aabbccddeeff") [0; 0; 0; 0; 0; 0] =
  map (fun i : nat =>
         16 * UhyveNet.dehex
                (nth (3 * i) (list_ascii_of_string "aabbccddeeff") zero) +
         UhyveNet.dehex
           (nth (3 * i + 1) (list_ascii_of_string "aabbccddeeff") zero))
      (seq 0 6).
Proof.
  apply (hwaddr_loop_positions (list_ascii_of_string "aabbccddeeff")
           [0; 0; 0; 0; 0; 0]).
  reflexivity.
Defined.

(** A string of twelve digits without separators is not what the loop
    expects: every third digit is skipped. *)
Example hwaddr_of_plain_digits :
  UhyveNet.uhyve_netif_init_hwaddr
    (list_ascii_of_string "aabbccddeeff") [0; 0; 0; 0; 0; 0] =
  [0xAA; 0xBC; 0xDD; 0xEF; 0x00; 0x00].
Proof. reflexivity. Qed.

Lemma uhyve_netif_init_opens_and_drains_witness :
  let P := UhyveNet.pool592 in
  let O := UhyveMore.plain_options in
  let host_mac := list_ascii_of_string "52:54:00:12:34:56" ++ [zero] in
  let nif : @UhyveMore.netif O :=
    @UhyveMore.Netif O false 0 [0; 0; 0; 0; 0; 0] (zero, zero) 0 None None 0 1
      tt None 0 tt in
  let s := UhyveMore.Statics false false None in
  let w : @UhyveNet.world P :=
    {| UhyveNet.uhyve_net_init_ok := 0;
       UhyveNet.rx_buf := replicate 2048 Byte.x00;
       UhyveNet.host_rx := [replicate 60 Byte.x01; replicate 40 Byte.x03];
       UhyveNet.stack := tt; UhyveNet.trace := [] |} in
  exists (nif' : @UhyveMore.netif O) (s' : UhyveMore.statics)
         (w' : @UhyveNet.world P) (evs : list UhyveNet.event),
    @UhyveMore.uhyve_netif_init P O host_mac (Some nif) s w =
      Some (ERR_OK, nif', s', w') /\
    (UhyveNet.uhyve_net_init_ok w = 0 -> UhyveNet.uhyve_netif_poll w = (tt, w)) /\
    UhyveNet.uhyve_net_init_ok w' = 1 /\
    UhyveNet.host_rx w' = [] /\
    UhyveNet.trace w' =
      UhyveNet.trace w ++
      [UhyveNet.Kprintf "uhyve_netif_init: Found uhyve_net interface" [];
       UhyveNet.Kprintf "uhye_netif uses irq %d" [11];
       UhyveNet.Kprintf "uhyve_netif_init: OK" []] ++ evs /\
    UhyveNet.count UhyveNet.is_eoi evs = 1%nat /\
    last evs = Some UhyveNet.Eoi /\
    UhyveNet.count UhyveNet.is_read evs = S (length (UhyveNet.host_rx w)) /\
    (UhyveNet.count UhyveNet.is_callback evs +
     UhyveNet.count (UhyveNet.is_stat UhyveNet.link_memerr) evs)%nat =
      length (UhyveNet.host_rx w) /\
    UhyveMore.irq_line s' = Some 11 /\
    UhyveMore.hwaddr_len nif' = 6 /\
    UhyveMore.hwaddr nif' =
      UhyveNet.uhyve_netif_init_hwaddr (take 18 host_mac) (UhyveMore.hwaddr nif) /\
    UhyveMore.mtu nif' = 32768 /\
    UhyveMore.linkoutput nif' = Some UhyveMore.uhyve_netif_output_fn /\
    (forall i, 0 <= i < 8 -> Z.testbit (UhyveMore.flags nif) i = true ->
               Z.testbit (UhyveMore.flags nif') i = true) /\
    @UhyveMore.uhyve_netif_init P O host_mac (Some nif') s' w' = None.
Proof.
  intros P O host_mac nif s w.
  apply (@uhyve_netif_init_opens_and_drains P O host_mac nif s w).
  reflexivity.
Defined.

(** That initialisation, run: the address, the flags (the old bit 0 kept)
    and the trace with the two frames handed to the worker. *)
Example uhyve_netif_init_run :
  let P := UhyveNet.pool592 in
  let O := UhyveMore.plain_options in
  let nif : @UhyveMore.netif O :=
    @UhyveMore.Netif O false 0 [0; 0; 0; 0; 0; 0] (zero, zero) 0 None None 0 1
      tt None 0 tt in
  let w : @UhyveNet.world P :=
    {| UhyveNet.uhyve_net_init_ok := 0;
       UhyveNet.rx_buf := replicate 2048 Byte.x00;
       UhyveNet.host_rx := [replicate 60 Byte.x01; replicate 40 Byte.x03];
       UhyveNet.stack := tt; UhyveNet.trace := [] |} in
  match @UhyveMore.uhyve_netif_init P O
          (list_ascii_of_string "52:54:00:12:34:56" ++ [zero]) (Some nif)
          (UhyveMore.Statics false false None) w with
  | Some (e, nif', _, w') =>
      (e, UhyveMore.hwaddr nif', UhyveMore.flags nif',
       UhyveMore.net_reads (UhyveNet.trace w'),
       UhyveNet.count UhyveNet.is_callback (UhyveNet.trace w'))
  | None => (ERR_VAL, [], 0, [], 0%nat)
  end =
  (ERR_OK, [0x52; 0x54; 0x00; 0x12; 0x34; 0x56], 0x6F, [2048; 60; 40], 2%nat).
Proof. by vm_compute. Qed.
